(** * generate_spheres.py: shaded-sphere icons, one per dye colour

    A shallow embedding of [generate_spheres.py].  Python floats are IEEE-754
    binary64 numbers, so they are modelled by Rocq's primitive [float]s, whose
    [+], [-], [*], [/] and [sqrt] are the same correctly rounded operations.
    Python integers are [Z], strings are lists of characters, and exceptions
    are values of an error monad.  The only operation left abstract is the C
    library's [pow], which [**] calls and whose last bit no standard fixes. *)

From Stdlib Require Import ZArith List Bool Lia Ascii String.
From Stdlib Require Import PrimFloat FloatOps SpecFloat FloatAxioms Uint63.
From stdpp Require Import base list.

Set Warnings "-inexact-float".
#[local] Open Scope Z_scope.

(** ** Python's exceptions and the values the builtins return *)

Module Py.

Inductive exn : Set :=
| ValueError
| ZeroDivisionError
| OverflowError
| IndexError
| AttributeError
| TypeError.

Inductive result (A : Type) : Type :=
| Ok (a : A)
| Raise (e : exn).
Arguments Ok {A} a.
Arguments Raise {A} e.

Definition bind {A B} (m : result A) (k : A -> result B) : result B :=
  match m with
  | Ok a => k a
  | Raise e => Raise e
  end.

Definition is_ok {A} (m : result A) : bool :=
  match m with Ok _ => true | Raise _ => false end.

(** [float(n)] for a Python integer; exact while [|n| < 2^53]. *)
Definition Z2F (n : Z) : float :=
  if n <? 0 then PrimFloat.opp (of_uint63 (Uint63.of_Z (- n)))
  else of_uint63 (Uint63.of_Z n).

(** [int(f)]: the integer part of a float, by dropping the fraction bits of
    its mantissa; [ValueError] on a NaN, [OverflowError] on an infinity. *)
Definition int (f : float) : result Z :=
  match Prim2SF f with
  | S754_zero _ => Ok 0
  | S754_finite s m e =>
      let a := if 0 <=? e then Z.shiftl (Zpos m) e
               else Z.shiftr (Zpos m) (- e) in
      Ok (if s then - a else a)
  | S754_infinity _ => Raise OverflowError
  | S754_nan => Raise ValueError
  end.

(** [math.sqrt]: a negative argument is a domain error. *)
Definition math_sqrt (f : float) : result float :=
  if (f <? 0)%float then Raise ValueError else Ok (PrimFloat.sqrt f).

(** [a / b] on floats: a zero divisor raises. *)
Definition truediv (a b : float) : result float :=
  if (b =? 0)%float then Raise ZeroDivisionError else Ok (a / b)%float.

(** [max(0, v)]: Python keeps the first argument unless the second is
    strictly greater (so a NaN or a negative zero gives 0). *)
Definition max0 (v : float) : float :=
  if (0 <? v)%float then v else 0%float.

End Py.

Import Py.

(** Sequencing, written [x ← m; k] below. *)
#[global] Instance result_bind : MBind result := fun A B k m => Py.bind m k.
#[global] Instance result_ret : MRet result := fun A a => Ok a.

(** ** Python strings and [int(s, 16)] *)

(** A string is the list of its characters, each a code point below 256. *)
Abbreviation str := (list ascii).

Definition code (c : ascii) : Z := Z.of_N (N_of_ascii c).

(** The whitespace the parser of [int] skips: tab, line feed, vertical tab,
    form feed, carriage return and space. *)
Definition isspace (c : ascii) : bool :=
  ((9 <=? code c) && (code c <=? 13)) || (code c =? 32).

(** The value of a character as a digit: 0-9, then a-z or A-Z for 10-35;
    37 for every other character. *)
Definition digit_value (c : ascii) : Z :=
  if (48 <=? code c) && (code c <=? 57) then code c - 48
  else if (97 <=? code c) && (code c <=? 122) then code c - 87
  else if (65 <=? code c) && (code c <=? 90) then code c - 55
  else 37.

Definition is_underscore (c : ascii) : bool := code c =? 95.

(** [s.lstrip(ch)]: every leading occurrence of [ch] is removed. *)
Fixpoint lstrip (ch : ascii) (s : str) : str :=
  match s with
  | c :: rest => if Ascii.eqb c ch then lstrip ch rest else s
  | [] => []
  end.

Fixpoint skip_spaces (s : str) : str :=
  match s with
  | c :: rest => if isspace c then skip_spaces rest else s
  | [] => []
  end.

(** [s[i:j]] for [0 <= i <= j]. *)
Definition slice (s : str) (i j : nat) : str := take (j - i) (drop i s).

(** The digits of a number in base [base], single underscores allowed
    between them: the value read and the rest of the string, or [None]
    when an underscore is doubled or ends the digits. *)
Fixpoint scan_digits (base : Z) (s : str) (after_underscore : bool)
    (acc : Z) : option (Z * str) :=
  match s with
  | [] => if after_underscore then None else Some (acc, [])
  | c :: rest =>
      if digit_value c <? base then
        scan_digits base rest false (acc * base + digit_value c)
      else if is_underscore c then
        if after_underscore then None else scan_digits base rest true acc
      else if after_underscore then None else Some (acc, s)
  end.

(** The Unicode whitespace from code point 127 on, below 256: next line
    (U+0085) and no-break space (U+00A0). *)
Definition is_unicode_space (c : ascii) : bool :=
  (code c =? 133) || (code c =? 160).

(** What [int] does to a string that is not ASCII before it parses it:
    the characters below 127 stay, Unicode whitespace becomes a space and,
    no decimal digit lying between 127 and 255, the first other character
    becomes a question mark, where the string is cut. *)
Fixpoint spaces_to_ascii (s : str) : str :=
  match s with
  | [] => []
  | c :: rest =>
      if code c <? 127 then c :: spaces_to_ascii rest
      else if is_unicode_space c then " "%char :: spaces_to_ascii rest
      else ["?"%char]
  end.

Definition to_ascii (s : str) : str :=
  if forallb (fun c => code c <? 128) s then s else spaces_to_ascii s.

(** The parser of [int(s, 16)] on the ASCII string: optional whitespace, an
    optional sign, an optional [0x] prefix, then at least one hexadecimal
    digit, then optional whitespace. *)
Definition long_from_string16 (s : str) : result Z :=
  let s1 := skip_spaces s in
  let '(negative, s2) :=
    match s1 with
    | c :: rest =>
        if code c =? 43 then (false, rest)
        else if code c =? 45 then (true, rest)
        else (false, s1)
    | [] => (false, s1)
    end in
  let s3 :=
    match s2 with
    | c0 :: cx :: rest =>
        if (code c0 =? 48) && ((code cx =? 120) || (code cx =? 88)) then
          match rest with
          | u :: rest' => if is_underscore u then rest' else rest
          | [] => rest
          end
        else s2
    | _ => s2
    end in
  match s3 with
  | c :: _ =>
      if digit_value c <? 16 then
        match scan_digits 16 s3 false 0 with
        | Some (n, rest) =>
            match skip_spaces rest with
            | [] => Ok (if negative then - n else n)
            | _ :: _ => Raise ValueError
            end
        | None => Raise ValueError
        end
      else Raise ValueError
  | [] => Raise ValueError
  end.

(** [int(s, 16)] for a string [s]. *)
Definition int16 (s : str) : result Z := long_from_string16 (to_ascii s).

(** ** Configuration (module level) *)

Definition IMG_SIZE : Z := 128.
Definition RADIUS : float := 60%float.
Definition CENTER : float := 63.5%float.

(** Light direction, normalised once when the module is loaded. *)
Definition len_l : float :=
  PrimFloat.sqrt ((-0.5) * (-0.5) + (-0.5) * (-0.5) + 0.8 * 0.8)%float.
Definition LX : float := ((-0.5) / len_l)%float.
Definition LY : float := ((-0.5) / len_l)%float.
Definition LZ : float := (0.8 / len_l)%float.

(** ** [hex_to_rgb] *)

Definition hex_to_rgb (hex_str : str) : result (Z * Z * Z) :=
  let hex_str := lstrip "#" hex_str in
  r ← int16 (slice hex_str 0 2);
  g ← int16 (slice hex_str 2 4);
  b ← int16 (slice hex_str 4 6);
  Ok (r, g, b).

(** ** Images: PIL's RGBA image and its pixel access object *)

Definition rgba : Type := Z * Z * Z * Z.

Definition alpha_of (p : rgba) : Z := snd p.
Definition rgb_of (p : rgba) : Z * Z * Z := fst p.

(** Rows of pixels; [pixels[x, y]] is column [x] of row [y]. *)
Abbreviation Image := (list (list rgba)).

Definition Image_new (w h : Z) (fill : rgba) : Image :=
  replicate (Z.to_nat h) (replicate (Z.to_nat w) fill).

Definition getpixel (img : Image) (x y : Z) : option rgba :=
  if (x <? 0) || (y <? 0) then None
  else row ← img !! Z.to_nat y; row !! Z.to_nat x.

(** [pixels[x, y] = v]; outside the image PIL raises [IndexError]. *)
Definition putpixel (img : Image) (x y : Z) (v : rgba) : result Image :=
  match getpixel img x y with
  | Some _ => Ok (alter (fun row => <[Z.to_nat x := v]> row) (Z.to_nat y) img)
  | None => Raise IndexError
  end.

(** ** [generate_sphere] *)

Section Kernel.

(** The C library's [pow], which Python's [float ** int] calls. *)
Variable libm_pow : float -> float -> float.

(** [v ** 20] for a positive float [v], as CPython's [float_pow] does it:
    base 1.0 is answered directly, otherwise the library is called and a
    result that is not finite is reported as an exception. *)
Definition float_pow20 (v : float) : result float :=
  if (v =? 1)%float then Ok 1%float
  else
    let r := libm_pow v 20%float in
    if is_nan r then Raise ValueError
    else if is_infinity r then Raise OverflowError
    else Ok r.

(** The body of the two loops of [generate_sphere] for pixel [(x, y)]:
    [None] is the [continue] of an off-sphere pixel, [Some p] the tuple
    written to [pixels[x, y]]. *)
Definition shade (rgb : Z * Z * Z) (x y : Z) : result (option rgba) :=
  let '(r_base, g_base, b_base) := rgb in
  let dx := (Z2F x - CENTER)%float in
  let dy := (Z2F y - CENTER)%float in
  let dist_sq := (dx * dx + dy * dy)%float in
  if (RADIUS * RADIUS <? dist_sq)%float then Ok None
  else
    z ← math_sqrt (RADIUS * RADIUS - dist_sq)%float;
    nx ← truediv dx RADIUS;
    ny ← truediv dy RADIUS;
    nz ← truediv z RADIUS;
    let diffuse := max0 (nx * LX + ny * LY + nz * LZ)%float in
    specular ←
      (if (0 <? diffuse)%float then
         let rz := (2 * diffuse * nz - LZ)%float in
         if (0 <? rz)%float then float_pow20 rz else Ok 0%float
       else Ok 0%float);
    let ambient := 0.3%float in
    let light_intensity := (ambient + diffuse * 0.7)%float in
    r ← int (Z2F r_base * light_intensity + specular * 255 * 0.4)%float;
    g ← int (Z2F g_base * light_intensity + specular * 255 * 0.4)%float;
    b ← int (Z2F b_base * light_intensity + specular * 255 * 0.4)%float;
    let r := Z.min 255 (Z.max 0 r) in
    let g := Z.min 255 (Z.max 0 g) in
    let b := Z.min 255 (Z.max 0 b) in
    root ← math_sqrt dist_sq;
    let edge_dist := (RADIUS - root)%float in
    alpha ←
      (if (edge_dist <? 1)%float then int (255 * edge_dist)%float
       else Ok 255);
    Ok (Some (r, g, b, alpha)).

Definition pixel_step (rgb : Z * Z * Z) (y x : Z) (img : Image)
  : result Image :=
  o ← shade rgb x y;
  match o with
  | None => Ok img
  | Some p => putpixel img x y p
  end.

(** [for i in range(n): img = body i img], stopping at the first
    exception. *)
Fixpoint for_range (body : Z -> Image -> result Image) (idx : list Z)
    (img : Image) : result Image :=
  match idx with
  | [] => Ok img
  | i :: rest => img' ← body i img; for_range body rest img'
  end.

Definition range (n : Z) : list Z := seqZ 0 n.

Definition generate_sphere (rgb : Z * Z * Z) : result Image :=
  let img := Image_new IMG_SIZE IMG_SIZE (0, 0, 0, 0) in
  for_range
    (fun y img => for_range (pixel_step rgb y) (range IMG_SIZE) img)
    (range IMG_SIZE) img.

End Kernel.

(** ** JSON values *)

Set Warnings "-register-all".

(** A value returned by [json.load] or [json.loads]; the members of an
    object are its items, one per key. *)
Inductive json : Type :=
| JNull
| JBool (b : bool)
| JNum (n : Z)
| JFloat (x : float)
| JStr (s : string)
| JList (items : list json)
| JObj (members : list (string * json)).

Fixpoint assoc (key : string) (members : list (string * json))
  : option json :=
  match members with
  | [] => None
  | (k, v) :: rest => if String.eqb k key then Some v else assoc key rest
  end.

(** ** [main]: the driver loop

    [main] is modelled from the value [json.load] returned, whatever its
    shape.  Creating the directory, reading the file and the progress
    messages are left out.  [img.save] is a parameter of the model: whether
    the call returns or raises, given the calls made before it. *)

Section Driver.

Variable libm_pow : float -> float -> float.

(** [img.save(output_path, ...)], where [output_path] is made from the
    identifier: [true] when the call returns, [false] when it raises; the
    first argument holds the calls made so far. *)
Variable img_save : list (json * Image) -> json -> Image -> bool.

(** What the run has done so far: the calls of [img.save], each with the
    identifier its file is named after and the image; those of them that
    returned; and the counter. *)
Record run : Type :=
  { attempts : list (json * Image);
    saved : list (json * Image);
    count : Z }.

(** [entry.get(key)]: the value under the key or [None]; only a dictionary
    has the method. *)
Definition get (entry : json) (key : string) : result json :=
  match entry with
  | JObj members => Ok (default JNull (assoc key members))
  | _ => Raise AttributeError
  end.

Definition is_none (v : json) : bool :=
  match v with
  | JNull => true
  | _ => false
  end.

(** The truth value of [v] in a condition. *)
Definition truthy (v : json) : bool :=
  match v with
  | JNull => false
  | JBool b => b
  | JNum n => negb (n =? 0)
  | JFloat x => negb (x =? 0)%float
  | JStr s => negb (String.eqb s "")
  | JList items => match items with [] => false | _ :: _ => true end
  | JObj members => match members with [] => false | _ :: _ => true end
  end.

(** [hex_to_rgb(hex_color)] on whatever the entry holds: only a string has
    [lstrip]. *)
Definition hex_to_rgb_of (hex_color : json) : result (Z * Z * Z) :=
  match hex_color with
  | JStr s => hex_to_rgb (list_ascii_of_string s)
  | _ => Raise AttributeError
  end.

(** One iteration of [for entry in data].  The two calls of [get] are
    outside the [try] and their exception ends the run; an exception raised
    while parsing, rendering or saving is caught and the counter is left as
    it is. *)
Definition process_entry (st : run) (entry : json) : result run :=
  item_id ← get entry "itemID";
  hex_color ← get entry "hex";
  if negb (is_none item_id) && truthy hex_color then
    match rgb ← hex_to_rgb_of hex_color; generate_sphere libm_pow rgb with
    | Ok img =>
        let tried := attempts st ++ [(item_id, img)] in
        if img_save (attempts st) item_id img then
          Ok {| attempts := tried;
                saved := saved st ++ [(item_id, img)];
                count := count st + 1 |}
        else Ok {| attempts := tried; saved := saved st; count := count st |}
    | Raise _ => Ok st
    end
  else Ok st.

(** The loop: the state when it ends, and the exception that ended it if
    one did. *)
Fixpoint for_entries (entries : list json) (st : run) : run * option exn :=
  match entries with
  | [] => (st, None)
  | entry :: rest =>
      match process_entry st entry with
      | Ok st' => for_entries rest st'
      | Raise e => (st, Some e)
      end
  end.

(** The values [for entry in data] goes through: the items of a list, the
    keys of a dictionary, the characters of a string.  The other values
    have no length either, and [len(data)] raises before the loop. *)
Definition elements (data : json) : result (list json) :=
  match data with
  | JList items => Ok items
  | JObj members => Ok (map (fun kv => JStr (fst kv)) members)
  | JStr s => Ok (map (fun c => JStr (String c EmptyString))
                      (list_ascii_of_string s))
  | _ => Raise TypeError
  end.

Definition main (data : json) : run * option exn :=
  let st := {| attempts := []; saved := []; count := 0 |} in
  match elements data with
  | Ok entries => for_entries entries st
  | Raise e => (st, Some e)
  end.

End Driver.

(** ** A library to run the kernel with *)

(** A stand-in for the library: [b ** 20] by repeated squaring, kept inside
    [0, 1] for a base strictly between 0 and 1. *)
Definition pow_by_squaring (b : float) : float :=
  let b2 := (b * b)%float in
  let b4 := (b2 * b2)%float in
  let b5 := (b4 * b)%float in
  let b10 := (b5 * b5)%float in
  (b10 * b10)%float.

Definition pow_model (b e : float) : float :=
  let r := pow_by_squaring b in
  if (0 <? b)%float && (b <? 1)%float then
    if (0 <=? r)%float && (r <=? 1)%float then r else 0%float
  else r.

(** * Vocabulary of the properties *)

(** ** Well-formed images, pixels and colours *)

Definition wf_image (img : Image) : Prop :=
  length img = Z.to_nat IMG_SIZE /\
  Forall (fun row : list rgba => length row = Z.to_nat IMG_SIZE) img.

Definition in_image (x y : Z) : Prop :=
  0 <= x < IMG_SIZE /\ 0 <= y < IMG_SIZE.

Definition valid_color (rgb : Z * Z * Z) : Prop :=
  let '(r, g, b) := rgb in
  0 <= r <= 255 /\ 0 <= g <= 255 /\ 0 <= b <= 255.

(** What is assumed of the C library: the 20th power of a number strictly
    between 0 and 1 lies between 0 and 1. *)
Definition pow_in_unit (pow : float -> float -> float) : Prop :=
  forall b, (0 <? b)%float = true -> (b <? 1)%float = true ->
    (0 <=? pow b 20)%float = true /\ (pow b 20 <=? 1)%float = true.

(** ** The quantities of one pixel

    The intermediate values of the loop body, as functions of the pixel
    coordinate. *)

Definition offset (x : Z) : float := (Z2F x - CENTER)%float.

Definition dist_sq (x y : Z) : float :=
  (offset x * offset x + offset y * offset y)%float.

(** The test guarding [continue]. *)
Definition off_sphere (x y : Z) : bool :=
  (RADIUS * RADIUS <? dist_sq x y)%float.

Definition normal_x (x : Z) : float := (offset x / RADIUS)%float.
Definition normal_y (y : Z) : float := (offset y / RADIUS)%float.
Definition normal_z (x y : Z) : float :=
  (PrimFloat.sqrt (RADIUS * RADIUS - dist_sq x y) / RADIUS)%float.

Definition diffuse (x y : Z) : float :=
  max0 (normal_x x * LX + normal_y y * LY + normal_z x y * LZ)%float.

Definition reflect_z (x y : Z) : float :=
  (2 * diffuse x y * normal_z x y - LZ)%float.

(** Does the pixel take the branch that raises [rz] to the 20th power? *)
Definition highlighted (x y : Z) : bool :=
  (0 <? diffuse x y)%float && (0 <? reflect_z x y)%float.

Definition specular (pow : float -> float -> float) (x y : Z) : float :=
  if highlighted x y then pow (reflect_z x y) 20%float else 0%float.

Definition light_intensity (x y : Z) : float :=
  (0.3 + diffuse x y * 0.7)%float.

Definition edge_dist (x y : Z) : float :=
  (RADIUS - PrimFloat.sqrt (dist_sq x y))%float.

(** [int] where it cannot raise. *)
Definition trunc (f : float) : Z :=
  match int f with
  | Ok n => n
  | Raise _ => 0
  end.

Definition clamp (n : Z) : Z := Z.min 255 (Z.max 0 n).

(** The floating-point value of a channel, before [int] and the clamp. *)
Definition channel_value (pow : float -> float -> float) (base x y : Z)
  : float :=
  (Z2F base * light_intensity x y + specular pow x y * 255 * 0.4)%float.

Definition channel (pow : float -> float -> float) (base x y : Z) : Z :=
  clamp (trunc (channel_value pow base x y)).

Definition alpha (x y : Z) : Z :=
  if (edge_dist x y <? 1)%float then trunc (255 * edge_dist x y)%float
  else 255.

(** The pixel of the returned image at [(x, y)]. *)
Definition pixel (pow : float -> float -> float) (rgb : Z * Z * Z)
    (x y : Z) : rgba :=
  if off_sphere x y then (0, 0, 0, 0)
  else
    let '(r_base, g_base, b_base) := rgb in
    (channel pow r_base x y, channel pow g_base x y, channel pow b_base x y,
     alpha x y).

(** ** Distance from the centre, exactly

    Twice the offset of a pixel from the centre [(63.5, 63.5)] is the odd
    integer [2 * x - 127], so four times the squared planar distance is an
    integer and the comparisons with the radius are exact. *)

Definition dist2x4 (x y : Z) : Z :=
  (2 * x - 127) * (2 * x - 127) + (2 * y - 127) * (2 * y - 127).

(** Planar distance from the centre at most [r] (an integer). *)
Definition within (r : Z) (x y : Z) : Prop := dist2x4 x y <= 4 * r * r.

Definition withinb (r : Z) (x y : Z) : bool := dist2x4 x y <=? 4 * r * r.

(** Two pixels in the same direction from the centre: their doubled offsets
    are parallel and point the same way. *)
Definition same_ray (x1 y1 x2 y2 : Z) : Prop :=
  (2 * x1 - 127) * (2 * y2 - 127) = (2 * y1 - 127) * (2 * x2 - 127) /\
  0 < (2 * x1 - 127) * (2 * x2 - 127) + (2 * y1 - 127) * (2 * y2 - 127).

(** ** Alpha as a function of the distance from the centre *)

(** The alpha of the returned image at a pixel. *)
Definition image_alpha (x y : Z) : Z :=
  if off_sphere x y then 0 else alpha x y.

(** The same value computed from four times the squared distance. *)
Definition alpha_at (d : Z) : Z :=
  if 14400 <? d then 0
  else
    let e := (RADIUS - PrimFloat.sqrt (Z2F d / 4))%float in
    if (e <? 1)%float then trunc (255 * e)%float else 255.

Definition max_dist2x4 : Z := 32258.

(** ** The scenario of base colour #FF6B35 *)

(** A channel before the specular term is added: [base * light_intensity]. *)
Definition pre_specular (base x y : Z) : float :=
  (Z2F base * light_intensity x y)%float.

(** The combined intensity R + G + B before specular, as a float and as
    the sum of the integer channels it would give. *)
Definition pre_specular_sum (rgb : Z * Z * Z) (x y : Z) : float :=
  let '(r, g, b) := rgb in
  (pre_specular r x y + pre_specular g x y + pre_specular b x y)%float.

Definition pre_specular_total (rgb : Z * Z * Z) (x y : Z) : Z :=
  let '(r, g, b) := rgb in
  clamp (trunc (pre_specular r x y)) + clamp (trunc (pre_specular g x y))
  + clamp (trunc (pre_specular b x y)).

(** ** The shading formula as the specification words it *)

Module Spec.

Definition vec : Type := float * float * float.

Definition dot (u v : vec) : float :=
  let '(ux, uy, uz) := u in
  let '(vx, vy, vz) := v in
  (ux * vx + uy * vy + uz * vz)%float.

(** The light [(-0.5, -0.5, 0.8)], normalised. *)
Definition light : vec :=
  let n := PrimFloat.sqrt ((-0.5) * (-0.5) + (-0.5) * (-0.5) + 0.8 * 0.8) in
  ((-0.5) / n, (-0.5) / n, 0.8 / n)%float.

(** [N = (dx / radius, dy / radius, z / radius)]. *)
Definition normal (x y : Z) : vec :=
  let dx := (Z2F x - 63.5)%float in
  let dy := (Z2F y - 63.5)%float in
  let z := PrimFloat.sqrt (60 * 60 - (dx * dx + dy * dy)) in
  (dx / 60, dy / 60, z / 60)%float.

(** [diffuse = max(0, N.L)]. *)
Definition diffuse (x y : Z) : float := max0 (dot (normal x y) light).

(** [Rz = 2 * diffuse * N.z - L.z]. *)
Definition Rz (x y : Z) : float :=
  (2 * diffuse x y * snd (normal x y) - snd light)%float.

(** [specular = Rz ^ 20] if [diffuse > 0] and [Rz > 0], else 0. *)
Definition specular (pow : float -> float -> float) (x y : Z) : float :=
  if (0 <? diffuse x y)%float && (0 <? Rz x y)%float
  then pow (Rz x y) 20%float else 0%float.

Definition clamp (n lo hi : Z) : Z :=
  if n <? lo then lo else if hi <? n then hi else n.

(** [clamp(int(base * (0.3 + 0.7 * diffuse) + specular * 255 * 0.4), 0, 255)]. *)
Definition channel (pow : float -> float -> float) (base x y : Z)
  : result Z :=
  n ← int (Z2F base * (0.3 + 0.7 * diffuse x y)
           + specular pow x y * 255 * 0.4)%float;
  Ok (clamp n 0 255).

(** The exact value of a finite float, as a fraction whose denominator is a
    power of two. *)
Definition ratio (f : float) : option (Z * Z) :=
  match Prim2SF f with
  | S754_zero _ => Some (0, 1)
  | S754_finite s m e =>
      Some ((if s then Zneg m else Zpos m) * 2 ^ Z.max e 0, 2 ^ Z.max (- e) 0)
  | _ => None
  end.

(** Truncation toward zero: the quotient of [Z.quot]. *)
Definition toward_zero (f : float) : option Z :=
  '(n, d) ← ratio f; Some (Z.quot n d).

(** Rounding to the nearest integer, ties to even: Python's [round]. *)
Definition to_nearest (f : float) : option Z :=
  '(n, d) ← ratio f;
  let q := n / d in
  let r := n mod d in
  Some (if 2 * r <? d then q
        else if d <? 2 * r then q + 1
        else if Z.even q then q else q + 1).

End Spec.

(** ** Colour strings and rejected entries *)










(** ** Entries of the driver loop *)

Definition is_object (v : json) : bool :=
  match v with
  | JObj _ => true
  | _ => false
  end.

(** An entry of the colour file with the two fields the loop reads. *)
Definition dye (item_id : Z) (h : string) : json :=
  JObj [("itemID", JNum item_id); ("hex", JStr h)]%string.

(** The identifier under which the loop tries to save an image for an
    element, if it does: the element is an object with an identifier other
    than [None] and a non-empty colour string that [hex_to_rgb] accepts. *)
Definition written_id (e : json) : option json :=
  match e with
  | JObj members =>
      let item_id := default JNull (assoc "itemID" members) in
      match assoc "hex" members with
      | Some (JStr h) =>
          if negb (is_none item_id) && negb (String.eqb h "")
             && is_ok (hex_to_rgb (list_ascii_of_string h))
          then Some item_id else None
      | _ => None
      end
  | _ => None
  end.

(** ** Checks run over every pixel *)

(** No operation of the body other than [**] can raise at pixel [(x, y)],
    and the values it combines are in the ranges the geometry promises. *)
Definition pixel_safe (x y : Z) : bool :=
  off_sphere x y ||
  (negb (RADIUS * RADIUS - dist_sq x y <? 0)%float
   && negb (dist_sq x y <? 0)%float
   && (0 <=? light_intensity x y)%float
   && (light_intensity x y <=? 1)%float
   && (negb (highlighted x y)
       || ((reflect_z x y <? 1)%float && negb (reflect_z x y =? 1)%float))
   && (negb (edge_dist x y <? 1)%float
       || is_ok (int (255 * edge_dist x y)%float))).

Definition all_pixels (P : Z -> Z -> bool) : bool :=
  forallb (fun y => forallb (fun x => P x y) (range IMG_SIZE)) (range IMG_SIZE).

(** [P d && P (d + 1) && ...], [n] values in all. *)
Fixpoint holds_from (n : nat) (d : Z) (P : Z -> bool) : bool :=
  match n with
  | O => true
  | S k => P d && holds_from k (d + 1) P
  end.

(** ** Magnitudes of binary64 numbers *)

(** A finite number of magnitude below [2 ^ k]. *)
Definition sf_below (k : Z) (x : spec_float) : Prop :=
  match x with
  | S754_zero _ => True
  | S754_finite _ m e => Zdigits2 (Zpos m) + e <= k
  | _ => False
  end.

(** [f] is finite and [|f| < 2 ^ k]. *)
Definition below (k : Z) (f : float) : Prop := sf_below k (Prim2SF f).

(** A positive finite number of magnitude at least [2 ^ k]. *)
Definition sf_above (k : Z) (x : spec_float) : Prop :=
  match x with
  | S754_finite false m e => k < Zdigits2 (Zpos m) + e
  | _ => False
  end.

(** Zero or a positive finite number. *)
Definition sf_nonneg (x : spec_float) : Prop :=
  match x with
  | S754_zero _ => True
  | S754_finite s _ _ => s = false
  | _ => False
  end.

(** [2 ^ k <= f], and [0 <= f], for a finite [f]. *)
Definition above (k : Z) (f : float) : Prop := sf_above k (Prim2SF f).

Definition nonneg (f : float) : Prop := sf_nonneg (Prim2SF f).

(** What the loops have written so far: the body's tuple where it produced
    one, the old pixel elsewhere. *)
Definition painted (f : Z -> Z -> option rgba) (old : option rgba)
    (x y : Z) : option rgba :=
  match f x y with
  | Some p => Some p
  | None => old
  end.


(** * Vocabulary of the further properties *)

(** Thirty percent of a base channel, as an integer. *)
Definition shadow_channel (base : Z) : Z :=
  clamp (trunc (Z2F base * 0.3)%float).

(** Base colours whose channels fit a machine word, the range on which
    [Z2F] is the conversion of a Python integer to a float. *)
Definition int63_color (rgb : Z * Z * Z) : Prop :=
  let '(r, g, b) := rgb in
  Z.abs r < 2 ^ 63 /\ Z.abs g < 2 ^ 63 /\ Z.abs b < 2 ^ 63.

(** [c.upper()] for an ASCII character. *)
Definition upper (c : ascii) : ascii :=
  if (97 <=? code c) && (code c <=? 122)
  then ascii_of_N (Z.to_N (code c - 32)) else c.

(** Every character, for checks by enumeration. *)
Definition all_ascii : list ascii := map ascii_of_nat (seq 0 256).

(** Equality of two results of [int16]. *)
Definition result_eqb (a b : result Z) : bool :=
  match a, b with
  | Ok m, Ok n => m =? n
  | Raise ValueError, Raise ValueError => true
  | _, _ => false
  end.

(** What is checked of [int16] on a slice: it raises nothing but
    [ValueError], its value is between -15 and 255, and the case of the
    letters does not matter. *)
Definition slice_ok (s : str) : bool :=
  match int16 s with
  | Ok v => (-15 <=? v) && (v <=? 255)
  | Raise ValueError => true
  | Raise _ => false
  end
  && result_eqb (int16 (map upper s)) (int16 s).

(** * wake_bot.py: starting the stopped machines *)

(** [wake_bot] reaches the outside through [subprocess.run], [json.loads]
    and [print].  The first two are parameters of the model:
    [subprocess.run] as a function of the argument list and of the calls
    made before it, which gives a completed process or raises; [json.loads]
    as a partial function of the output, undefined where it raises
    [JSONDecodeError].  [print] appends to a log and is taken to succeed.
    The values [json.loads] returns are modelled in full, since the code
    indexes and iterates them without checking their shape. *)

Module Wake.

Inductive exn : Set :=
| KeyError
| TypeError
| FileNotFoundError
| OtherError.

(** What [subprocess.run] hands back, or the exception it raises. *)
Record completed : Type :=
  { returncode : Z; stdout : string; stderr : string }.

Inductive outcome : Type :=
| Completed (r : completed)
| RunRaises (e : exn).

(** The lines printed, as the values they are formatted from. *)
Inductive event : Type :=
| Waking
| Checking
| ListFailed (err : string)
| ParseFailed (out : string)
| AllRunning (n : nat)
| Found (n : nat)
| Starting (mid : json)
| Started (mid : json)
| StartFailed (mid : json) (err : string)
| Complete
| FlyNotFound
| Unexpected (e : exn).

Definition command : Type := list string.

Definition app_name : string := "xivdyetools-bot".

Definition list_command : command :=
  ["fly"; "machines"; "list"; "-a"; app_name; "--json"]%string.

Definition start_command (mid : string) : command :=
  ["fly"; "machine"; "start"; mid; "-a"; app_name]%string.

(** [m[key]] for a string [key]. *)
Definition getitem (m : json) (key : string) : json + exn :=
  match m with
  | JObj members =>
      match assoc key members with
      | Some v => inl v
      | None => inr KeyError
      end
  | _ => inr TypeError
  end.

(** The values [for m in v] goes through. *)
Definition iterate (v : json) : list json + exn :=
  match v with
  | JList items => inl items
  | JObj members => inl (map (fun kv => JStr (fst kv)) members)
  | JStr s => inl (map (fun c => JStr (String c EmptyString))
                       (list_ascii_of_string s))
  | _ => inr TypeError
  end.

Definition is_stopped (v : json) : bool :=
  match v with
  | JStr s => String.eqb s "stopped"
  | _ => false
  end.

(** [[m for m in ms if m['state'] == 'stopped']]. *)
Fixpoint stopped (ms : list json) : list json + exn :=
  match ms with
  | [] => inl []
  | m :: rest =>
      match getitem m "state" with
      | inr e => inr e
      | inl st =>
          match stopped rest with
          | inr e => inr e
          | inl keep => inl (if is_stopped st then m :: keep else keep)
          end
      end
  end.

Section Run.

(** [subprocess.run]: what an argument list gives, given the argument lists
    it was called with before. *)
Variable subprocess_run : list command -> command -> outcome.

Variable json_loads : string -> option json.

(** The commands run so far and the lines printed so far. *)
Definition world : Type := list command * list event.

Definition say (w : world) (e : event) : world := (fst w, snd w ++ [e]).

Definition run_command (w : world) (cmd : command) : world * outcome :=
  ((fst w ++ [cmd], snd w), subprocess_run (fst w) cmd).

(** The handlers of the outer [try]. *)
Definition handle (w : world) (e : exn) : world :=
  match e with
  | FileNotFoundError => say w FlyNotFound
  | _ => say w (Unexpected e)
  end.

(** The [for machine in stopped_machines] loop; [inr] when it raises. *)
Fixpoint start_all (ms : list json) (w : world) : world * option exn :=
  match ms with
  | [] => (w, None)
  | machine :: rest =>
      match getitem machine "id" with
      | inr e => (w, Some e)
      | inl mid =>
          let w := say w (Starting mid) in
          match mid with
          | JStr id =>
              let '(w, out) := run_command w (start_command id) in
              match out with
              | RunRaises e => (w, Some e)
              | Completed r =>
                  let w :=
                    if returncode r =? 0 then say w (Started mid)
                    else say w (StartFailed mid (stderr r)) in
                  start_all rest w
              end
          | _ => (w, Some TypeError)
          end
      end
  end.

Definition json_len (v : json) : nat :=
  match v with
  | JList items => length items
  | JObj members => length members
  | JStr s => String.length s
  | _ => 0%nat
  end.

Definition wake_bot : world :=
  let w := say ([], []) Waking in
  let w := say w Checking in
  let '(w, out) := run_command w list_command in
  match out with
  | RunRaises e => handle w e
  | Completed result =>
      if negb (returncode result =? 0) then say w (ListFailed (stderr result))
      else
        match json_loads (stdout result) with
        | None => say w (ParseFailed (stdout result))
        | Some machines =>
            match iterate machines with
            | inr e => handle w e
            | inl ms =>
                match stopped ms with
                | inr e => handle w e
                | inl [] => say w (AllRunning (json_len machines))
                | inl stopped_machines =>
                    let w := say w (Found (length stopped_machines)) in
                    match start_all stopped_machines w with
                    | (w, Some e) => handle w e
                    | (w, None) => say w Complete
                    end
                end
            end
        end
  end.

End Run.

(** The argument lists [subprocess.run] was called with, in order. *)
Definition trace (w : world) : list command := fst w.

(** The lines printed, in order. *)
Definition printed (w : world) : list event := snd w.

(** [machine['id']] when it is a string. *)
Definition id_str (m : json) : option string :=
  match getitem m "id" with
  | inl (JStr id) => Some id
  | _ => None
  end.

(** The identifier of a machine listed with state ['stopped']. *)
Definition stopped_id (m : json) : option string :=
  match getitem m "state" with
  | inl st => if is_stopped st then id_str m else None
  | inr _ => None
  end.

(** An element of the listing that has a state and, when the state is
    ['stopped'], a string identifier. *)
Definition listed_ok (m : json) : Prop :=
  exists st, getitem m "state" = inl st /\
             (is_stopped st = true -> is_Some (id_str m)).

(** A machine as [fly machines list --json] describes it. *)
Definition machine (id state : string) : json :=
  JObj [("id", JStr id); ("state", JStr state)]%string.

Definition example_listing : list json :=
  [machine "a" "stopped"; machine "b" "started"; machine "c" "stopped"].

(** A [fly] that answers the first command and fails every later one. *)
Definition failing_fly (h : list command) (cmd : command) : outcome :=
  Completed {| returncode := Z.of_nat (length h);
               stdout := "listing"; stderr := "no capacity" |}.

End Wake.

(** * Properties *)

(** ** The model on a few inputs *)

Example int_examples :
  int 254.99%float = Ok 254 /\ int (-3.7)%float = Ok (-3) /\
  int infinity = Raise OverflowError /\ int nan = Raise ValueError.
Proof. repeat split; vm_compute; reflexivity. Qed.

Example int16_examples :
  int16 (list_ascii_of_string "ff") = Ok 255 /\
  int16 (list_ascii_of_string "3") = Ok 3 /\
  int16 (list_ascii_of_string "-2") = Ok (-2) /\
  int16 (list_ascii_of_string " 3") = Ok 3 /\
  int16 (list_ascii_of_string "0x") = Raise ValueError /\
  int16 (list_ascii_of_string "1_") = Raise ValueError /\
  int16 (list_ascii_of_string "G0") = Raise ValueError /\
  int16 [] = Raise ValueError /\
  int16 [ascii_of_nat 160; "1"%char] = Ok 1 /\
  int16 ["1"%char; ascii_of_nat 133] = Ok 1 /\
  int16 [ascii_of_nat 233; "1"%char] = Raise ValueError.
Proof. repeat split; vm_compute; reflexivity. Qed.

Example hex_to_rgb_examples :
  hex_to_rgb (list_ascii_of_string "#FF6B35") = Ok (255, 107, 53) /\
  hex_to_rgb (list_ascii_of_string "ff6b35") = Ok (255, 107, 53) /\
  hex_to_rgb (list_ascii_of_string "##FF6B35") = Ok (255, 107, 53) /\
  hex_to_rgb (list_ascii_of_string "FF6B3") = Ok (255, 107, 3) /\
  hex_to_rgb (list_ascii_of_string "+1-2 3") = Ok (1, -2, 3) /\
  hex_to_rgb (list_ascii_of_string "#GGGGGG") = Raise ValueError /\
  hex_to_rgb (list_ascii_of_string "#FFF") = Raise ValueError.
Proof. repeat split; vm_compute; reflexivity. Qed.

Example light_direction :
  len_l = 1.0677078252031311%float /\
  LX = (-0.46829290579084698)%float /\
  LZ = 0.74926864926535519%float.
Proof. repeat split; vm_compute; reflexivity. Qed.

Example shade_examples :
  shade pow_model (255, 107, 53) 30 30 = Ok (Some (251, 105, 52, 255)) /\
  shade pow_model (255, 107, 53) 97 97 = Ok (Some (76, 32, 15, 255)) /\
  shade pow_model (255, 107, 53) 5 5 = Ok None /\
  shade pow_model (255, 255, 255) 63 4 = Ok (Some (177, 177, 177, 126)).
Proof. repeat split; vm_compute; reflexivity. Qed.

(** ** Pixel access *)

Lemma wf_Image_new fill : wf_image (Image_new IMG_SIZE IMG_SIZE fill).
Proof.
  split; unfold Image_new.
  - apply length_replicate.
  - apply Forall_replicate, length_replicate.
Qed.

Lemma getpixel_Image_new fill x y :
  in_image x y -> getpixel (Image_new IMG_SIZE IMG_SIZE fill) x y = Some fill.
Proof.
  intros [Hx Hy]; unfold getpixel, Image_new.
  destruct (x <? 0) eqn:Ex; [lia|]. destruct (y <? 0) eqn:Ey; [lia|].
  unfold IMG_SIZE in *.
  cbn [orb]. rewrite lookup_replicate_2 by lia.
  cbn [mbind option_bind]. apply lookup_replicate_2; lia.
Qed.

Lemma getpixel_is_Some img x y :
  wf_image img -> (in_image x y <-> is_Some (getpixel img x y)).
Proof.
  intros [Hlen Hrows]; unfold getpixel, in_image. split.
  - intros [Hx Hy].
    destruct (x <? 0) eqn:Ex; [lia|]. destruct (y <? 0) eqn:Ey; [lia|].
    cbn [orb]. unfold IMG_SIZE in *.
    destruct (lookup_lt_is_Some_2 img (Z.to_nat y)) as [row Hrow]; [lia|].
    rewrite Hrow; cbn [mbind option_bind]. apply lookup_lt_is_Some_2.
    rewrite Forall_lookup in Hrows. rewrite (Hrows _ _ Hrow). lia.
  - destruct (x <? 0) eqn:Ex; destruct (y <? 0) eqn:Ey; simpl;
      try (intros [? ?]; discriminate).
    destruct (img !! Z.to_nat y) as [row|] eqn:Hrow; simpl;
      [|intros [? ?]; discriminate].
    intros Hsome. apply lookup_lt_is_Some_1 in Hsome.
    apply lookup_lt_Some in Hrow as Hy.
    rewrite Forall_lookup in Hrows. rewrite (Hrows _ _ Hrow) in Hsome.
    unfold IMG_SIZE in *. lia.
Qed.

Lemma putpixel_spec img x y v :
  wf_image img -> in_image x y ->
  exists img',
    putpixel img x y v = Ok img' /\ wf_image img' /\
    forall x' y', getpixel img' x' y' =
      if (x' =? x) && (y' =? y) then Some v else getpixel img x' y'.
Proof.
  intros Hwf Hin.
  destruct (proj1 (getpixel_is_Some img x y Hwf) Hin) as [q Hq].
  unfold putpixel; rewrite Hq. eexists; split; [reflexivity|].
  destruct Hwf as [Hlen Hrows]. destruct Hin as [Hx Hy]. split.
  - split; [by rewrite length_alter|].
    rewrite Forall_lookup in Hrows. apply Forall_lookup. intros i row.
    rewrite list_lookup_alter. destruct (decide (Z.to_nat y = i)) as [<-|].
    + destruct (img !! Z.to_nat y) as [r0|] eqn:Hr; simpl; [|done].
      intros [= <-]. rewrite length_insert. by eapply Hrows.
    + apply Hrows.
  - intros x' y'. unfold getpixel.
    destruct (x' <? 0) eqn:Ex'; simpl.
    { destruct (x' =? x) eqn:E; [lia|]. reflexivity. }
    destruct (y' <? 0) eqn:Ey'; simpl.
    { destruct (y' =? y) eqn:E; [lia|]. by rewrite andb_false_r. }
    rewrite list_lookup_alter.
    destruct (decide (Z.to_nat y = Z.to_nat y')) as [Heq|Hne].
    + assert (y' = y) as -> by lia. rewrite Z.eqb_refl, andb_true_r.
      destruct (img !! Z.to_nat y) as [r0|] eqn:Hr; simpl; [|].
      * rewrite list_lookup_insert.
        destruct (decide (Z.to_nat x = Z.to_nat x')) as [Hxe|Hxn].
        -- assert (x' = x) as -> by lia. rewrite Z.eqb_refl.
           rewrite Forall_lookup in Hrows. rewrite (Hrows _ _ Hr).
           unfold IMG_SIZE in *. case_decide; [reflexivity|lia].
        -- destruct (x' =? x) eqn:E; [lia|].
           case_decide; [tauto|reflexivity].
      * apply lookup_ge_None in Hr. unfold IMG_SIZE in *. lia.
    + destruct (y' =? y) eqn:E; [lia|]. by rewrite andb_false_r.
Qed.

(** ** The two loops *)

Lemma for_range_app body l1 l2 img :
  for_range body (l1 ++ l2) img =
  (img' ← for_range body l1 img; for_range body l2 img').
Proof.
  revert img; induction l1 as [|i l1 IH]; intros img; [reflexivity|].
  cbn [app for_range]. unfold mbind, result_bind.
  destruct (body i img) as [img1|e]; cbn [Py.bind]; [apply IH|reflexivity].
Qed.

(** A loop over [range(n)] whose body never raises and re-establishes an
    invariant indexed by the loop counter. *)
Lemma for_range_invariant (Inv : Z -> Image -> Prop) body (n : nat) img :
  Inv 0 img ->
  (forall i im, 0 <= i < Z.of_nat n -> Inv i im ->
     exists im', body i im = Ok im' /\ Inv (i + 1) im') ->
  exists img', for_range body (range (Z.of_nat n)) img = Ok img' /\
               Inv (Z.of_nat n) img'.
Proof.
  intros H0 Hstep. unfold range. induction n as [|n IH].
  - exists img. split; [reflexivity|exact H0].
  - destruct IH as (im & Hrun & Hinv).
    { intros i im Hi. apply Hstep. lia. }
    destruct (Hstep (Z.of_nat n) im) as (im' & Hbody & Hinv'); [lia|exact Hinv|].
    exists im'. rewrite seqZ_S, for_range_app, Hrun.
    rewrite Z.add_0_l. unfold mbind, result_bind. cbn [Py.bind for_range].
    rewrite Hbody. split; [reflexivity|].
    replace (Z.of_nat (S n)) with (Z.of_nat n + 1) by lia. exact Hinv'.
Qed.

Section Loops.

Variable libm_pow : float -> float -> float.
Variable rgb : Z * Z * Z.

(** What each in-image pixel's body returns. *)
Variable f : Z -> Z -> option rgba.
Hypothesis shade_f :
  forall x y, in_image x y -> shade libm_pow rgb x y = Ok (f x y).

Lemma pixel_step_spec img x y :
  wf_image img -> in_image x y ->
  exists img',
    pixel_step libm_pow rgb y x img = Ok img' /\ wf_image img' /\
    forall x' y', getpixel img' x' y' =
      if (x' =? x) && (y' =? y) then painted f (getpixel img x' y') x' y'
      else getpixel img x' y'.
Proof.
  intros Hwf Hin. unfold pixel_step. rewrite (shade_f x y Hin). cbn.
  destruct (f x y) as [p|] eqn:Hf.
  - destruct (putpixel_spec img x y p Hwf Hin) as (img' & Hput & Hwf' & Hget).
    exists img'. split; [exact Hput|]. split; [exact Hwf'|].
    intros x' y'. rewrite Hget.
    destruct ((x' =? x) && (y' =? y)) eqn:E; [|reflexivity].
    apply andb_prop in E as [Ex Ey].
    apply Z.eqb_eq in Ex, Ey. subst. unfold painted. by rewrite Hf.
  - exists img. split; [reflexivity|]. split; [exact Hwf|].
    intros x' y'.
    destruct ((x' =? x) && (y' =? y)) eqn:E; [|reflexivity].
    apply andb_prop in E as [Ex Ey].
    apply Z.eqb_eq in Ex, Ey. subst. unfold painted. by rewrite Hf.
Qed.

Lemma row_spec img y :
  wf_image img -> 0 <= y < IMG_SIZE ->
  exists img',
    for_range (pixel_step libm_pow rgb y) (range IMG_SIZE) img = Ok img' /\
    wf_image img' /\
    forall x' y', getpixel img' x' y' =
      if (y' =? y) && (0 <=? x') && (x' <? IMG_SIZE)
      then painted f (getpixel img x' y') x' y'
      else getpixel img x' y'.
Proof.
  intros Hwf Hy.
  pose (Inv := fun (i : Z) (im : Image) =>
    wf_image im /\
    forall x' y', getpixel im x' y' =
      if (y' =? y) && (0 <=? x') && (x' <? i)
      then painted f (getpixel img x' y') x' y'
      else getpixel img x' y').
  destruct (for_range_invariant Inv (pixel_step libm_pow rgb y)
              (Z.to_nat IMG_SIZE) img) as (img' & Hrun & Hinv).
  - split; [exact Hwf|]. intros x' y'.
    destruct (y' =? y); destruct (0 <=? x') eqn:E1; destruct (x' <? 0) eqn:E2;
      try reflexivity; lia.
  - intros i im Hi [Hwfi Hgeti].
    destruct (pixel_step_spec im i y Hwfi) as (im' & Hstep & Hwf' & Hget').
    { unfold in_image, IMG_SIZE in *. lia. }
    exists im'. split; [exact Hstep|]. split; [exact Hwf'|].
    intros x' y'. rewrite Hget', Hgeti.
    destruct (y' =? y) eqn:Ey; destruct (x' =? i) eqn:Ex;
      destruct (0 <=? x') eqn:E0; destruct (x' <? i) eqn:E1;
      destruct (x' <? i + 1) eqn:E2; cbn [andb]; try reflexivity; lia.
  - exists img'. replace (Z.of_nat (Z.to_nat IMG_SIZE)) with IMG_SIZE in *
      by reflexivity.
    destruct Hinv as [Hwf' Hget]. auto.
Qed.

Lemma generate_sphere_spec :
  exists img,
    generate_sphere libm_pow rgb = Ok img /\ wf_image img /\
    forall x y, in_image x y ->
      getpixel img x y =
      Some (match f x y with Some p => p | None => (0, 0, 0, 0) end).
Proof.
  pose (img0 := Image_new IMG_SIZE IMG_SIZE (0, 0, 0, 0)).
  pose (Inv := fun (j : Z) (im : Image) =>
    wf_image im /\
    forall x' y', getpixel im x' y' =
      if (0 <=? y') && (y' <? j) && (0 <=? x') && (x' <? IMG_SIZE)
      then painted f (getpixel img0 x' y') x' y'
      else getpixel img0 x' y').
  destruct (for_range_invariant Inv
              (fun y im => for_range (pixel_step libm_pow rgb y)
                             (range IMG_SIZE) im)
              (Z.to_nat IMG_SIZE) img0) as (img' & Hrun & Hinv).
  - split; [apply wf_Image_new|]. intros x' y'.
    destruct (0 <=? y') eqn:E1; destruct (y' <? 0) eqn:E2;
      try reflexivity; lia.
  - intros j im Hj [Hwfj Hgetj].
    destruct (row_spec im j Hwfj) as (im' & Hstep & Hwf' & Hget').
    { unfold IMG_SIZE in *. lia. }
    exists im'. split; [exact Hstep|]. split; [exact Hwf'|].
    intros x' y'. rewrite Hget', Hgetj.
    destruct (y' =? j) eqn:Ey; destruct (0 <=? y') eqn:E0;
      destruct (y' <? j) eqn:E1; destruct (y' <? j + 1) eqn:E2;
      destruct (0 <=? x'); destruct (x' <? IMG_SIZE);
      cbn [andb]; try reflexivity; lia.
  - exists img'. replace (Z.of_nat (Z.to_nat IMG_SIZE)) with IMG_SIZE in *
      by reflexivity.
    destruct Hinv as [Hwf' Hget]. split; [exact Hrun|]. split; [exact Hwf'|].
    intros x y Hin. rewrite Hget.
    unfold img0. rewrite (getpixel_Image_new _ x y Hin).
    destruct Hin as [Hx Hy].
    destruct (0 <=? y) eqn:E0; [|lia]. destruct (y <? IMG_SIZE) eqn:E1; [|lia].
    destruct (0 <=? x) eqn:E2; [|lia]. destruct (x <? IMG_SIZE) eqn:E3; [|lia].
    cbn [andb]. unfold painted. destruct (f x y); reflexivity.
Qed.

End Loops.

(** ** Every pixel is safe *)

Lemma all_pixels_spec P :
  all_pixels P = true -> forall x y, in_image x y -> P x y = true.
Proof.
  unfold all_pixels, range, in_image. intros H x y [Hx Hy].
  rewrite forallb_forall in H.
  assert (Hiny : In y (seqZ 0 IMG_SIZE)).
  { apply list_elem_of_In, elem_of_seqZ. lia. }
  specialize (H y Hiny). rewrite forallb_forall in H. apply H.
  apply list_elem_of_In, elem_of_seqZ. lia.
Qed.

Lemma pixel_safe_all : all_pixels pixel_safe = true.
Proof. vm_compute. reflexivity. Qed.

(** ** Bit lengths *)

Lemma digits2_pos_size p : digits2_pos p = Pos.size p.
Proof. induction p; cbn; congruence. Qed.

Lemma Zdigits2_log2 m : 0 < m -> Zdigits2 m = Z.log2 m + 1.
Proof.
  destruct m as [|p|p]; try lia. intros _. cbn [Zdigits2].
  rewrite digits2_pos_size. destruct p; cbn; lia.
Qed.

Lemma Zdigits2_nonneg m : 0 <= Zdigits2 m.
Proof. destruct m; cbn; lia. Qed.

Lemma Zdigits2_pos m : 0 < m -> 0 < Zdigits2 m.
Proof. destruct m; cbn; lia. Qed.

Lemma Zdigits2_le m n : 0 <= m <= n -> Zdigits2 m <= Zdigits2 n.
Proof.
  intros [Hm Hmn]. destruct (Z.eq_dec m 0) as [->|Hm0].
  - apply Zdigits2_nonneg.
  - rewrite !Zdigits2_log2 by lia.
    pose proof (Z.log2_le_mono m n Hmn). lia.
Qed.

Lemma Zdigits2_succ m : 0 <= m -> Zdigits2 (m + 1) <= Zdigits2 m + 1.
Proof.
  intros Hm. destruct (Z.eq_dec m 0) as [->|Hm0]; [discriminate|].
  rewrite (Zdigits2_log2 m), (Zdigits2_log2 (m + 1)) by lia.
  pose proof (Z.log2_succ_le m) as H. replace (Z.succ m) with (m + 1) in H by lia.
  lia.
Qed.

Lemma Zdigits2_shiftr m n :
  0 <= m -> 0 <= n -> Zdigits2 (Z.shiftr m n) = Z.max (Zdigits2 m - n) 0.
Proof.
  intros Hm Hn. destruct (Z.eq_dec m 0) as [->|Hm0].
  { rewrite Z.shiftr_0_l. cbn. lia. }
  pose proof (Z.shiftr_nonneg m n) as Hs.
  destruct (Z.eq_dec (Z.shiftr m n) 0) as [E|E].
  - rewrite E. cbn [Zdigits2].
    apply Z.shiftr_eq_0_iff in E as [->|[_ Hlt]]; [lia|].
    rewrite Zdigits2_log2 by lia. lia.
  - rewrite !Zdigits2_log2 by lia.
    rewrite Z.log2_shiftr by lia.
    assert (Hge : n <= Z.log2 m).
    { destruct (Z_lt_le_dec (Z.log2 m) n) as [Hlt|]; [|lia].
      exfalso. apply E. apply Z.shiftr_eq_0; lia. }
    lia.
Qed.

Lemma Zdigits2_shl p d :
  Zpos (digits2_pos (Pos.iter xO p d)) = Zpos (digits2_pos p) + Zpos d.
Proof.
  induction d as [|d IH] using Pos.peano_ind.
  - cbn. lia.
  - rewrite Pos.iter_succ. cbn [digits2_pos]. lia.
Qed.

Lemma Zdigits2_lt_pow2 m k : 0 < m -> 0 <= k -> m < 2 ^ k -> Zdigits2 m <= k.
Proof.
  intros Hm Hk Hlt. rewrite Zdigits2_log2 by lia.
  apply Z.log2_lt_pow2 in Hlt; lia.
Qed.

Lemma Zdigits2_gt m : 0 <= m -> m < 2 ^ Zdigits2 m.
Proof.
  intros Hm. destruct (Z.eq_dec m 0) as [->|Hm0]; [reflexivity|].
  rewrite Zdigits2_log2 by lia.
  pose proof (Z.log2_spec m). unfold Z.succ in *. lia.
Qed.

(** ** Shifting a mantissa right *)

Lemma shr_1_m mrs :
  0 <= shr_m mrs -> shr_m (shr_1 mrs) = Z.div2 (shr_m mrs).
Proof. destruct mrs as [[|[p|p|]|p] r s]; cbn; intros; try reflexivity; lia. Qed.

Lemma iter_pos_shr_m p : forall mrs,
  0 <= shr_m mrs ->
  shr_m (SpecFloat.iter_pos shr_1 p mrs) = Z.shiftr (shr_m mrs) (Zpos p).
Proof.
  induction p as [p IH|p IH|]; intros mrs Hm; cbn [SpecFloat.iter_pos].
  - assert (H1 : 0 <= shr_m (shr_1 mrs)).
    { rewrite shr_1_m by lia. apply Z.div2_nonneg; lia. }
    rewrite IH; rewrite IH; try (apply Z.shiftr_nonneg; lia); try lia.
    rewrite shr_1_m, Z.div2_spec, !Z.shiftr_shiftr by lia.
    f_equal. lia.
  - rewrite IH; rewrite IH; try (apply Z.shiftr_nonneg; lia); try lia.
    rewrite Z.shiftr_shiftr by lia. f_equal. lia.
  - rewrite shr_1_m, Z.div2_spec by lia. reflexivity.
Qed.

(** ** Rounding cannot overflow below the top of the range *)

Lemma sf_below_mono j k x : j <= k -> sf_below j x -> sf_below k x.
Proof. destruct x; cbn; auto; lia. Qed.

Lemma fexp64 e : fexp prec emax e = Z.max (e - 53) (-1074).
Proof. reflexivity. Qed.

Lemma shr_record_of_loc_m m l : shr_m (shr_record_of_loc m l) = m.
Proof. destruct l as [|[]]; reflexivity. Qed.

Lemma round_nearest_even_bounds m l :
  m <= round_nearest_even m l <= m + 1.
Proof.
  destruct l as [|[]]; cbn [round_nearest_even]; try lia.
  destruct (Z.even m); lia.
Qed.

Lemma shr_fexp_spec m e l :
  0 <= m ->
  let n := Z.max 0 (fexp prec emax (Zdigits2 m + e) - e) in
  shr_m (fst (shr_fexp prec emax m e l)) = Z.shiftr m n /\
  snd (shr_fexp prec emax m e l) = e + n.
Proof.
  intros Hm n. unfold shr_fexp, shr. subst n.
  destruct (fexp prec emax (Zdigits2 m + e) - e) as [|p|p]; cbn [fst snd].
  - rewrite shr_record_of_loc_m. change (Z.max 0 0) with 0.
    rewrite Z.shiftr_0_r. split; lia.
  - rewrite iter_pos_shr_m by (rewrite shr_record_of_loc_m; lia).
    rewrite shr_record_of_loc_m.
    replace (Z.max 0 (Z.pos p)) with (Z.pos p) by lia. split; reflexivity.
  - rewrite shr_record_of_loc_m.
    replace (Z.max 0 (Z.neg p)) with 0 by lia.
    rewrite Z.shiftr_0_r. split; lia.
Qed.

Lemma binary_round_aux_below s m e K :
  0 < m -> Zdigits2 m + e <= K -> -1074 <= K <= 970 ->
  sf_below (K + 1) (binary_round_aux prec emax s m e loc_Exact).
Proof.
  intros Hm HK Hrange. unfold binary_round_aux.
  destruct (shr_fexp_spec m e loc_Exact) as [Hm1 He1]; [lia|].
  destruct (shr_fexp prec emax m e loc_Exact) as [mrs' e'].
  cbn [fst snd] in Hm1, He1.
  pose proof (round_nearest_even_bounds (shr_m mrs') (loc_of_shr_record mrs'))
    as Hrne.
  set (m1 := round_nearest_even (shr_m mrs') (loc_of_shr_record mrs')) in *.
  assert (Ha : 0 <= shr_m mrs') by (rewrite Hm1; apply Z.shiftr_nonneg; lia).
  pose proof (Zdigits2_shiftr m (Z.max 0 (fexp prec emax (Zdigits2 m + e) - e)))
    as Hda.
  rewrite <- Hm1 in Hda. specialize (Hda ltac:(lia) ltac:(lia)).
  pose proof (Zdigits2_le (shr_m mrs') m1 ltac:(lia)) as Hd1lo.
  pose proof (Zdigits2_le m1 (shr_m mrs' + 1) ltac:(lia)) as Hd1hi.
  pose proof (Zdigits2_succ (shr_m mrs') Ha) as Hsucc.
  destruct (shr_fexp_spec m1 e' loc_Exact) as [Hm2 He2]; [lia|].
  destruct (shr_fexp prec emax m1 e' loc_Exact) as [mrs'' e''].
  cbn [fst snd] in Hm2, He2.
  pose proof (Zdigits2_shiftr m1 (Z.max 0 (fexp prec emax (Zdigits2 m1 + e') - e')))
    as Hd2.
  rewrite <- Hm2 in Hd2. specialize (Hd2 ltac:(lia) ltac:(lia)).
  pose proof (Zdigits2_pos m Hm) as Hdm.
  assert (Hb : 0 <= shr_m mrs'') by (rewrite Hm2; apply Z.shiftr_nonneg; lia).
  rewrite !fexp64 in *.
  destruct (shr_m mrs'') as [|p|p] eqn:Ep.
  - exact I.
  - assert (Hp : 0 < Zdigits2 (Z.pos p)) by (apply Zdigits2_pos; lia).
    assert (He'' : e'' <= 971) by lia.
    replace (emax - prec) with 971 by reflexivity.
    destruct (e'' <=? 971) eqn:El; [|lia].
    cbn [sf_below]. lia.
  - lia.
Qed.

Lemma shl_align_digits mx ex ex' :
  Zdigits2 (Zpos (fst (shl_align mx ex ex'))) + snd (shl_align mx ex ex')
  = Zdigits2 (Zpos mx) + ex.
Proof.
  unfold shl_align. destruct (ex' - ex) as [|d|d] eqn:E; cbn [fst snd];
    try reflexivity.
  cbn [Zdigits2]. rewrite Zdigits2_shl. lia.
Qed.

Lemma shl_align_snd mx ex ez : ez <= ex -> snd (shl_align mx ex ez) = ez.
Proof.
  intros Hle. unfold shl_align.
  destruct (ez - ex) as [|d|d] eqn:E; cbn [fst snd]; lia.
Qed.

Lemma binary_round_below s m e K :
  Zdigits2 (Zpos m) + e <= K -> -1074 <= K <= 970 ->
  sf_below (K + 1) (binary_round prec emax s m e).
Proof.
  intros HK Hrange. unfold binary_round.
  pose proof (shl_align_digits m e
                (fexp prec emax (Zpos (digits2_pos m) + e))) as Hd.
  destruct (shl_align m e (fexp prec emax (Zpos (digits2_pos m) + e)))
    as [mz ez].
  cbn [fst snd] in Hd. apply binary_round_aux_below; lia.
Qed.

Lemma binary_normalize_below m e sz K :
  Zdigits2 m + e <= K -> -1074 <= K <= 970 ->
  sf_below (K + 1) (binary_normalize prec emax m e sz).
Proof.
  intros HK Hrange. destruct m as [|p|p]; cbn [binary_normalize].
  - exact I.
  - apply binary_round_below; assumption.
  - apply binary_round_below; assumption.
Qed.

Lemma SFmul_below j k x y :
  sf_below j x -> sf_below k y -> -1074 <= j + k <= 970 ->
  sf_below (j + k + 1) (SFmul prec emax x y).
Proof.
  destruct x as [sx|sx| |sx mx ex]; destruct y as [sy|sy| |sy my ey];
    cbn [sf_below SFmul]; try tauto.
  intros Hx Hy Hrange. apply binary_round_aux_below; try lia.
  pose proof (Zdigits2_gt (Zpos mx) ltac:(lia)) as Hgx.
  pose proof (Zdigits2_gt (Zpos my) ltac:(lia)) as Hgy.
  pose proof (Zdigits2_pos (Zpos mx) ltac:(lia)) as Hpx.
  pose proof (Zdigits2_pos (Zpos my) ltac:(lia)) as Hpy.
  assert (Hd : Zdigits2 (Zpos (mx * my))
               <= Zdigits2 (Zpos mx) + Zdigits2 (Zpos my)).
  { apply Zdigits2_lt_pow2; try lia.
    rewrite Z.pow_add_r by lia. rewrite Pos2Z.inj_mul. nia. }
  lia.
Qed.

Lemma Zdigits2_abs m : Zdigits2 (Z.abs m) = Zdigits2 m.
Proof. destruct m; reflexivity. Qed.

Lemma Zdigits2_add a b :
  0 < a -> 0 < b -> forall s,
  Z.abs s <= a + b -> Zdigits2 s <= Z.max (Zdigits2 a) (Zdigits2 b) + 1.
Proof.
  intros Ha Hb s Hs. rewrite <- Zdigits2_abs.
  pose proof (Zdigits2_gt a ltac:(lia)) as Hga.
  pose proof (Zdigits2_gt b ltac:(lia)) as Hgb.
  pose proof (Zdigits2_pos a Ha) as Hpa.
  pose proof (Zdigits2_pos b Hb) as Hpb.
  etransitivity; [apply (Zdigits2_le _ (a + b)); lia|].
  apply Zdigits2_lt_pow2; try lia.
  rewrite Z.pow_add_r, Z.pow_1_r by lia.
  pose proof (Z.pow_le_mono_r 2 (Zdigits2 a)
                (Z.max (Zdigits2 a) (Zdigits2 b)) ltac:(lia) ltac:(lia)).
  pose proof (Z.pow_le_mono_r 2 (Zdigits2 b)
                (Z.max (Zdigits2 a) (Zdigits2 b)) ltac:(lia) ltac:(lia)).
  lia.
Qed.

Lemma SFadd_below j k x y :
  sf_below j x -> sf_below k y -> -1074 <= Z.max j k + 1 <= 970 ->
  sf_below (Z.max j k + 2) (SFadd prec emax x y).
Proof.
  destruct x as [sx|sx| |sx mx ex]; destruct y as [sy|sy| |sy my ey];
    cbn [sf_below SFadd]; try tauto.
  - intros _ _ _. destruct sx, sy; exact I.
  - intros _ Hy _. lia.
  - intros Hx _ _. lia.
  - intros Hx Hy Hrange.
    pose proof (shl_align_digits mx ex (Z.min ex ey)) as Hdx.
    pose proof (shl_align_digits my ey (Z.min ex ey)) as Hdy.
    rewrite shl_align_snd in Hdx, Hdy by lia.
    set (a := Zpos (fst (shl_align mx ex (Z.min ex ey)))) in *.
    set (b := Zpos (fst (shl_align my ey (Z.min ex ey)))) in *.
    replace (Z.max j k + 2) with (Z.max j k + 1 + 1) by lia.
    apply binary_normalize_below; [|lia].
    pose proof (Zdigits2_add a b ltac:(lia) ltac:(lia)
                  (cond_Zopp sx a + cond_Zopp sy b)) as Hadd.
    assert (Habs : Z.abs (cond_Zopp sx a + cond_Zopp sy b) <= a + b).
    { unfold cond_Zopp. destruct sx, sy; lia. }
    specialize (Hadd Habs). lia.
Qed.

(** ** The same bounds on primitive floats *)

Lemma below_mono j k f : j <= k -> below j f -> below k f.
Proof. apply sf_below_mono. Qed.

Lemma mul_below j k x y :
  below j x -> below k y -> -1074 <= j + k <= 970 ->
  below (j + k + 1) (x * y)%float.
Proof. unfold below. rewrite FloatAxioms.mul_spec. apply SFmul_below. Qed.

Lemma add_below j k x y :
  below j x -> below k y -> -1074 <= Z.max j k + 1 <= 970 ->
  below (Z.max j k + 2) (x + y)%float.
Proof. unfold below. rewrite FloatAxioms.add_spec. apply SFadd_below. Qed.

Lemma below_finite k f :
  below k f -> is_nan f = false /\ is_infinity f = false.
Proof.
  unfold below, is_nan, is_infinity. rewrite !FloatAxioms.eqb_spec, FloatAxioms.abs_spec.
  change (Prim2SF infinity) with (S754_infinity false).
  destruct (Prim2SF f) as [s|s| |s m e]; cbn [sf_below]; try tauto.
  intros _. unfold SFeqb.
  split; destruct s; cbn [SFabs SFcompare];
    rewrite ?Z.compare_refl, ?Pos.compare_cont_refl; reflexivity.
Qed.

Lemma leb_below c mc ec f :
  Prim2SF c = S754_finite false mc ec ->
  (0 <=? f)%float = true -> (f <=? c)%float = true ->
  below (53 + ec) f.
Proof.
  intros Hc H0 Hle. rewrite FloatAxioms.leb_spec in H0, Hle. rewrite Hc in Hle.
  change (Prim2SF 0) with (S754_zero false) in H0.
  unfold below. pose proof (Prim2SF_valid f) as Hv.
  destruct (Prim2SF f) as [s|s| |s m e]; cbn [sf_below]; try exact I.
  - destruct s; discriminate.
  - discriminate.
  - destruct s; [discriminate|].
    unfold SFleb in Hle. cbn [SFcompare] in Hle.
    cbn [valid_binary] in Hv. unfold bounded, canonical_mantissa in Hv.
    apply andb_prop in Hv as [Hcanon _]. apply Z.eqb_eq in Hcanon.
    rewrite fexp64 in Hcanon. change IntDef.Z.add with Z.add in Hcanon.
    cbn [Zdigits2].
    destruct (e ?= ec) eqn:E.
    + apply Z.compare_eq in E. clear - E Hcanon. lia.
    + assert (Hlt : e < ec) by exact E. clear - Hlt Hcanon. lia.
    + discriminate.
Qed.

(** ** The body of the loops never raises *)

Lemma int_below k f : below k f -> int f = Ok (trunc f).
Proof.
  unfold below, trunc, int.
  destruct (Prim2SF f); cbn [sf_below]; intros H; try contradiction;
    reflexivity.
Qed.

Lemma below_unit f :
  (0 <=? f)%float = true -> (f <=? 1)%float = true -> below 1 f.
Proof.
  intros H0 H1.
  apply (leb_below 1%float 4503599627370496%positive (-52) f);
    [reflexivity|assumption|assumption].
Qed.

Lemma below_byte f :
  (0 <=? f)%float = true -> (f <=? 255)%float = true -> below 8 f.
Proof.
  intros H0 H1.
  apply (leb_below 255%float 8972014882652160%positive (-45) f);
    [reflexivity|assumption|assumption].
Qed.

Lemma channel_floats_checked :
  forallb (fun c => (0 <=? Z2F c)%float && (Z2F c <=? 255)%float)
          (seqZ 0 256) = true.
Proof. vm_compute. reflexivity. Qed.

Lemma Z2F_below c : 0 <= c <= 255 -> below 8 (Z2F c).
Proof.
  intros Hc. pose proof channel_floats_checked as H.
  rewrite forallb_forall in H. specialize (H c).
  destruct (andb_prop _ _ (H ltac:(apply list_elem_of_In, elem_of_seqZ; lia)))
    as [H0 H1].
  apply below_byte; assumption.
Qed.

Lemma channel_sum_below fc li s :
  below 8 fc -> below 1 li -> below 1 s ->
  below 14 (fc * li + s * 255 * 0.4)%float.
Proof.
  intros Hfc Hli Hs.
  assert (H255 : below 8 255%float) by (apply below_byte; reflexivity).
  assert (H04 : below 1 0.4%float) by (apply below_unit; reflexivity).
  pose proof (mul_below 8 1 fc li Hfc Hli ltac:(lia)) as Ha.
  pose proof (mul_below 1 8 s 255%float Hs H255 ltac:(lia)) as Hb.
  pose proof (mul_below _ _ _ _ Hb H04 ltac:(lia)) as Hc.
  pose proof (add_below _ _ _ _ Ha Hc ltac:(lia)) as Hd.
  eapply below_mono; [|exact Hd]. lia.
Qed.

Lemma pixel_safe_on x y :
  in_image x y -> off_sphere x y = false ->
  (RADIUS * RADIUS - dist_sq x y <? 0)%float = false /\
  (dist_sq x y <? 0)%float = false /\
  below 1 (light_intensity x y) /\
  (highlighted x y = true ->
     (reflect_z x y <? 1)%float = true /\
     (reflect_z x y =? 1)%float = false) /\
  ((edge_dist x y <? 1)%float = true ->
     int (255 * edge_dist x y)%float = Ok (trunc (255 * edge_dist x y)%float)).
Proof.
  intros Hin Hoff.
  pose proof (all_pixels_spec pixel_safe pixel_safe_all x y Hin) as H.
  unfold pixel_safe in H. rewrite Hoff in H. cbn [orb] in H.
  repeat (apply andb_prop in H as [H ?]).
  repeat split.
  - by apply negb_true_iff.
  - by apply negb_true_iff.
  - by apply below_unit.
  - destruct (highlighted x y); [|discriminate].
    cbn [negb orb] in *. by destruct (andb_prop _ _ H1).
  - destruct (highlighted x y); [|discriminate].
    cbn [negb orb] in *. destruct (andb_prop _ _ H1) as [_ Hne].
    by apply negb_true_iff.
  - intros Hed. rewrite Hed in *. cbn [negb orb] in *.
    unfold trunc. by destruct (int (255 * edge_dist x y)).
Qed.

Lemma specular_below pow x y :
  pow_in_unit pow -> in_image x y -> off_sphere x y = false ->
  below 1 (specular pow x y).
Proof.
  intros Hpow Hin Hoff. unfold specular.
  destruct (pixel_safe_on x y Hin Hoff) as (_ & _ & _ & Hhl & _).
  destruct (highlighted x y) eqn:E.
  - destruct (Hhl eq_refl) as [Hlt _].
    unfold highlighted in E. apply andb_prop in E as [_ Hrz].
    destruct (Hpow _ Hrz Hlt) as [H0 H1]. by apply below_unit.
  - apply below_unit; reflexivity.
Qed.

Lemma shade_total pow rgb x y :
  pow_in_unit pow -> valid_color rgb -> in_image x y ->
  shade pow rgb x y =
  Ok (if off_sphere x y then None else Some (pixel pow rgb x y)).
Proof.
  intros Hpow Hrgb Hin. destruct rgb as [[r g] b].
  destruct Hrgb as (Hr & Hg & Hb).
  unfold shade, pixel. cbv zeta.
  change (Z2F x - CENTER)%float with (offset x).
  change (Z2F y - CENTER)%float with (offset y).
  change (offset x * offset x + offset y * offset y)%float with (dist_sq x y).
  change (RADIUS * RADIUS <? dist_sq x y)%float with (off_sphere x y).
  destruct (off_sphere x y) eqn:Hoff; [reflexivity|].
  destruct (pixel_safe_on x y Hin Hoff) as (Hs1 & Hs2 & Hli & Hhl & Hed).
  pose proof (specular_below pow x y Hpow Hin Hoff) as Hsp.
  unfold math_sqrt, truediv. rewrite Hs1, Hs2.
  change (RADIUS =? 0)%float with false.
  unfold mbind, result_bind. cbn [Py.bind].
  change (offset x / RADIUS)%float with (normal_x x).
  change (offset y / RADIUS)%float with (normal_y y).
  change (PrimFloat.sqrt (RADIUS * RADIUS - dist_sq x y) / RADIUS)%float
    with (normal_z x y).
  change (max0 (normal_x x * LX + normal_y y * LY + normal_z x y * LZ)%float)
    with (diffuse x y).
  change (2 * diffuse x y * normal_z x y - LZ)%float with (reflect_z x y).
  change (0.3 + diffuse x y * 0.7)%float with (light_intensity x y).
  change (RADIUS - PrimFloat.sqrt (dist_sq x y))%float with (edge_dist x y).
  assert (Hspec :
    (if (0 <? diffuse x y)%float
     then if (0 <? reflect_z x y)%float
          then float_pow20 pow (reflect_z x y) else Ok 0%float
     else Ok 0%float) = Ok (specular pow x y)).
  { unfold specular, highlighted in *.
    destruct (0 <? diffuse x y)%float; [|reflexivity].
    destruct (0 <? reflect_z x y)%float; [|reflexivity].
    cbn [andb] in *. destruct (Hhl eq_refl) as [_ Hne].
    destruct (below_finite _ _ Hsp) as [Hnan Hinf].
    unfold float_pow20. rewrite Hne. cbv zeta. by rewrite Hnan, Hinf. }
  rewrite Hspec. cbn [Py.bind].
  rewrite !(int_below 14)
    by (apply channel_sum_below; [by apply Z2F_below|assumption|assumption]).
  cbn [Py.bind]. unfold channel, channel_value, clamp, alpha.
  destruct (edge_dist x y <? 1)%float.
  - rewrite (Hed eq_refl). reflexivity.
  - reflexivity.
Qed.

(** [pow_model] is such a library. *)
Lemma pow_model_in_unit : pow_in_unit pow_model.
Proof.
  intros b H0 H1. unfold pow_model. rewrite H0, H1. cbn [andb].
  destruct (0 <=? pow_by_squaring b)%float eqn:E0;
    destruct (pow_by_squaring b <=? 1)%float eqn:E1; cbn [andb];
    split; solve [assumption | reflexivity].
Qed.

(** ** The whole image *)

Lemma generate_sphere_total pow rgb :
  pow_in_unit pow -> valid_color rgb ->
  exists img,
    generate_sphere pow rgb = Ok img /\ wf_image img /\
    forall x y, in_image x y -> getpixel img x y = Some (pixel pow rgb x y).
Proof.
  intros Hpow Hrgb.
  destruct (generate_sphere_spec pow rgb
              (fun x y => if off_sphere x y then None
                          else Some (pixel pow rgb x y)))
    as (img & Hrun & Hwf & Hget).
  { intros x y Hin. by apply shade_total. }
  exists img. split; [exact Hrun|]. split; [exact Hwf|].
  intros x y Hin. rewrite (Hget x y Hin). unfold pixel.
  destruct (off_sphere x y); reflexivity.
Qed.

(** ** On the sphere and off it *)

Lemma off_sphere_checked :
  all_pixels (fun x y => Bool.eqb (off_sphere x y) (negb (withinb 60 x y)))
  = true.
Proof. vm_compute. reflexivity. Qed.

Lemma off_sphere_exact x y :
  in_image x y -> (off_sphere x y = false <-> within 60 x y).
Proof.
  intros Hin.
  pose proof (all_pixels_spec _ off_sphere_checked x y Hin) as H.
  apply eqb_prop in H. rewrite H. unfold withinb, within.
  destruct (dist2x4 x y <=? 4 * 60 * 60) eqn:E; cbn [negb];
    [apply Z.leb_le in E|apply Z.leb_gt in E]; split; intros; try lia;
    try reflexivity; discriminate.
Qed.

(** ** The formula of the specification *)

Lemma float_mul_comm x y : (x * y)%float = (y * x)%float.
Proof.
  apply Prim2SF_inj. rewrite !FloatAxioms.mul_spec. unfold SF64mul.
  destruct (Prim2SF x) as [sx|sx| |sx mx ex];
    destruct (Prim2SF y) as [sy|sy| |sy my ey]; cbn [SFmul];
    rewrite ?(xorb_comm sx sy), ?(Pos.mul_comm mx my), ?(Z.add_comm ex ey);
    reflexivity.
Qed.

Lemma spec_clamp_eq n : Spec.clamp n 0 255 = clamp n.
Proof.
  unfold Spec.clamp, clamp.
  destruct (n <? 0) eqn:E0; destruct (255 <? n) eqn:E1; lia.
Qed.

Lemma spec_diffuse_eq x y : Spec.diffuse x y = diffuse x y.
Proof. reflexivity. Qed.

Lemma spec_specular_eq pow x y : Spec.specular pow x y = specular pow x y.
Proof. reflexivity. Qed.

Lemma spec_channel_eq pow c x y :
  pow_in_unit pow -> 0 <= c <= 255 -> in_image x y ->
  off_sphere x y = false ->
  Spec.channel pow c x y = Ok (channel pow c x y).
Proof.
  intros Hpow Hc Hin Hoff. unfold Spec.channel.
  rewrite spec_diffuse_eq, spec_specular_eq.
  rewrite (float_mul_comm 0.7 (diffuse x y)).
  change (0.3 + diffuse x y * 0.7)%float with (light_intensity x y).
  destruct (pixel_safe_on x y Hin Hoff) as (_ & _ & Hli & _ & _).
  rewrite (int_below 14)
    by (apply channel_sum_below;
        [by apply Z2F_below|assumption|by apply specular_below]).
  unfold mbind, result_bind. cbn [Py.bind]. by rewrite spec_clamp_eq.
Qed.

Lemma channel_value_below pow c x y :
  pow_in_unit pow -> 0 <= c <= 255 -> in_image x y ->
  off_sphere x y = false ->
  below 14 (channel_value pow c x y).
Proof.
  intros Hpow Hc Hin Hoff.
  destruct (pixel_safe_on x y Hin Hoff) as (_ & _ & Hli & _ & _).
  apply channel_sum_below;
    [by apply Z2F_below|assumption|by apply specular_below].
Qed.

(** ** The claims about the image *)

(** C1: on every on-sphere pixel and for every base colour with channels in
    [0, 255], the image is produced and each of its R, G and B channels at
    that pixel is [clamp(int(base * (0.3 + 0.7 * diffuse) + specular * 255 *
    0.4), 0, 255)], with [diffuse] and [specular] as the specification
    defines them. *)
Theorem C1_channel_formula pow r g b x y :
  pow_in_unit pow -> valid_color (r, g, b) ->
  in_image x y -> within 60 x y ->
  exists img p,
    generate_sphere pow (r, g, b) = Ok img /\
    getpixel img x y = Some p /\
    exists cr cg cb,
      Spec.channel pow r x y = Ok cr /\
      Spec.channel pow g x y = Ok cg /\
      Spec.channel pow b x y = Ok cb /\
      rgb_of p = (cr, cg, cb).
Proof.
  intros Hpow Hrgb Hin Hon.
  destruct (generate_sphere_total pow (r, g, b) Hpow Hrgb)
    as (img & Hrun & _ & Hget).
  apply off_sphere_exact in Hon; [|exact Hin].
  destruct Hrgb as (Hr & Hg & Hb).
  exists img, (pixel pow (r, g, b) x y).
  split; [exact Hrun|]. split; [by apply Hget|].
  exists (channel pow r x y), (channel pow g x y), (channel pow b x y).
  rewrite !spec_channel_eq by assumption.
  unfold pixel. rewrite Hon. repeat split; reflexivity.
Qed.

Lemma C1_channel_formula_witness :
  exists img p,
    generate_sphere pow_model (255, 107, 53) = Ok img /\
    getpixel img 30 30 = Some p /\
    exists cr cg cb,
      Spec.channel pow_model 255 30 30 = Ok cr /\
      Spec.channel pow_model 107 30 30 = Ok cg /\
      Spec.channel pow_model 53 30 30 = Ok cb /\
      rgb_of p = (cr, cg, cb).
Proof.
  apply (C1_channel_formula pow_model 255 107 53 30 30).
  - exact pow_model_in_unit.
  - unfold valid_color. lia.
  - unfold in_image, IMG_SIZE. lia.
  - unfold within, dist2x4. lia.
Defined.

(** C2: exactly the in-image pixels within distance 60 of the centre have a
    tuple computed and written by the loop body; the body skips every other
    pixel, whose alpha in the returned image is 0. *)
Theorem C2_written_iff_on_sphere pow rgb :
  pow_in_unit pow -> valid_color rgb ->
  exists img,
    generate_sphere pow rgb = Ok img /\
    forall x y, in_image x y ->
      (within 60 x y ->
         exists p, shade pow rgb x y = Ok (Some p) /\
                   getpixel img x y = Some p) /\
      (~ within 60 x y ->
         shade pow rgb x y = Ok None /\
         exists p, getpixel img x y = Some p /\ alpha_of p = 0).
Proof.
  intros Hpow Hrgb.
  destruct (generate_sphere_total pow rgb Hpow Hrgb) as (img & Hrun & _ & Hget).
  exists img. split; [exact Hrun|]. intros x y Hin.
  pose proof (shade_total pow rgb x y Hpow Hrgb Hin) as Hshade.
  pose proof (off_sphere_exact x y Hin) as Hex.
  rewrite (Hget x y Hin). split.
  - intros Hon. apply Hex in Hon. rewrite Hon in Hshade.
    exists (pixel pow rgb x y). split; [exact Hshade|reflexivity].
  - intros Hoff. destruct (off_sphere x y) eqn:E.
    + split; [exact Hshade|]. eexists; split; [reflexivity|].
      unfold pixel. rewrite E. reflexivity.
    + exfalso. apply Hoff, Hex. reflexivity.
Qed.

Lemma C2_written_iff_on_sphere_witness :
  exists img,
    generate_sphere pow_model (255, 107, 53) = Ok img /\
    forall x y, in_image x y ->
      (within 60 x y ->
         exists p, shade pow_model (255, 107, 53) x y = Ok (Some p) /\
                   getpixel img x y = Some p) /\
      (~ within 60 x y ->
         shade pow_model (255, 107, 53) x y = Ok None /\
         exists p, getpixel img x y = Some p /\ alpha_of p = 0).
Proof.
  apply (C2_written_iff_on_sphere pow_model (255, 107, 53)).
  - exact pow_model_in_unit.
  - unfold valid_color. lia.
Defined.

(** C10: for every base colour, every in-image pixel farther than 60 from
    the centre is exactly [(0, 0, 0, 0)] in the returned image. *)
Theorem C10_off_sphere_zero pow rgb x y :
  pow_in_unit pow -> valid_color rgb ->
  in_image x y -> ~ within 60 x y ->
  exists img,
    generate_sphere pow rgb = Ok img /\
    getpixel img x y = Some (0, 0, 0, 0).
Proof.
  intros Hpow Hrgb Hin Hoff.
  destruct (generate_sphere_total pow rgb Hpow Hrgb) as (img & Hrun & _ & Hget).
  exists img. split; [exact Hrun|]. rewrite (Hget x y Hin). unfold pixel.
  destruct (off_sphere x y) eqn:E; [reflexivity|].
  exfalso. by apply Hoff, off_sphere_exact.
Qed.

Lemma C10_off_sphere_zero_witness :
  exists img,
    generate_sphere pow_model (255, 107, 53) = Ok img /\
    getpixel img 5 5 = Some (0, 0, 0, 0).
Proof.
  apply (C10_off_sphere_zero pow_model (255, 107, 53) 5 5).
  - exact pow_model_in_unit.
  - unfold valid_color. lia.
  - unfold in_image, IMG_SIZE. lia.
  - unfold within, dist2x4. lia.
Defined.

Lemma sqrt_argument_checked :
  all_pixels (fun x y =>
    off_sphere x y || (0 <=? RADIUS * RADIUS - dist_sq x y)%float) = true.
Proof. vm_compute. reflexivity. Qed.

(** C8: for every base colour with channels in [0, 255] [generate_sphere]
    returns an image, of 128 rows of 128 pixels; on every on-sphere pixel
    the argument of the square root is non-negative, so [math.sqrt] does not
    raise, and the divisor [RADIUS] is not zero, so no division raises. *)
Theorem C8_generate_sphere_total pow rgb :
  pow_in_unit pow -> valid_color rgb ->
  (exists img,
     generate_sphere pow rgb = Ok img /\ wf_image img /\
     forall x y, in_image x y <-> is_Some (getpixel img x y)) /\
  (forall x y, in_image x y -> within 60 x y ->
     (0 <=? RADIUS * RADIUS - dist_sq x y)%float = true /\
     math_sqrt (RADIUS * RADIUS - dist_sq x y)%float
     = Ok (PrimFloat.sqrt (RADIUS * RADIUS - dist_sq x y))) /\
  (RADIUS =? 0)%float = false /\
  (forall a, truediv a RADIUS = Ok (a / RADIUS)%float).
Proof.
  intros Hpow Hrgb. split; [|split; [|split]].
  - destruct (generate_sphere_total pow rgb Hpow Hrgb)
      as (img & Hrun & Hwf & Hget).
    exists img. split; [exact Hrun|]. split; [exact Hwf|].
    intros x y. by apply getpixel_is_Some.
  - intros x y Hin Hon. apply off_sphere_exact in Hon; [|exact Hin].
    pose proof (all_pixels_spec _ sqrt_argument_checked x y Hin) as H.
    cbv beta in H. rewrite Hon in H. cbn [orb] in H. split; [exact H|].
    destruct (pixel_safe_on x y Hin Hon) as (Hneg & _).
    unfold math_sqrt. by rewrite Hneg.
  - reflexivity.
  - intros a. reflexivity.
Qed.

Lemma C8_generate_sphere_total_witness :
  (exists img,
     generate_sphere pow_model (0, 0, 0) = Ok img /\ wf_image img /\
     forall x y, in_image x y <-> is_Some (getpixel img x y)) /\
  (forall x y, in_image x y -> within 60 x y ->
     (0 <=? RADIUS * RADIUS - dist_sq x y)%float = true /\
     math_sqrt (RADIUS * RADIUS - dist_sq x y)%float
     = Ok (PrimFloat.sqrt (RADIUS * RADIUS - dist_sq x y))) /\
  (RADIUS =? 0)%float = false /\
  (forall a, truediv a RADIUS = Ok (a / RADIUS)%float).
Proof.
  apply (C8_generate_sphere_total pow_model (0, 0, 0)).
  - exact pow_model_in_unit.
  - unfold valid_color. lia.
Defined.

(** ** [int] truncates toward zero *)

Lemma int_toward_zero f n : int f = Ok n <-> Spec.toward_zero f = Some n.
Proof.
  unfold int, Spec.toward_zero, Spec.ratio.
  destruct (Prim2SF f) as [s|s| |s m e]; cbn [mbind option_bind].
  - rewrite Z.quot_1_r. split; intros [= <-]; reflexivity.
  - split; discriminate.
  - split; discriminate.
  - assert (Heq : (if s then - (if 0 <=? e then Z.shiftl (Z.pos m) e
                               else Z.shiftr (Z.pos m) (- e))
                   else (if 0 <=? e then Z.shiftl (Z.pos m) e
                         else Z.shiftr (Z.pos m) (- e)))
                  = Z.quot ((if s then Z.neg m else Z.pos m) * 2 ^ Z.max e 0)
                      (2 ^ Z.max (- e) 0)).
    { destruct (0 <=? e) eqn:E.
      - apply Z.leb_le in E.
        replace (Z.max e 0) with e by lia.
        replace (Z.max (- e) 0) with 0 by lia.
        rewrite Z.pow_0_r, Z.quot_1_r, Z.shiftl_mul_pow2 by lia.
        destruct s; [|reflexivity].
        change (Z.neg m) with (- Z.pos m). lia.
      - apply Z.leb_gt in E.
        replace (Z.max e 0) with 0 by lia.
        replace (Z.max (- e) 0) with (- e) by lia.
        rewrite Z.pow_0_r, Z.mul_1_r, Z.shiftr_div_pow2 by lia.
        assert (Hpos : 0 < 2 ^ (- e)) by (apply Z.pow_pos_nonneg; lia).
        destruct s.
        + change (Z.neg m) with (- Z.pos m).
          rewrite Z.quot_opp_l by lia.
          rewrite Z.quot_div_nonneg by lia. reflexivity.
        + rewrite Z.quot_div_nonneg by lia. reflexivity. }
    rewrite Heq. split; intros [= <-]; reflexivity.
Qed.

Lemma trunc_toward_zero k f :
  below k f -> Spec.toward_zero f = Some (trunc f).
Proof. intros H. apply int_toward_zero. by apply (int_below k). Qed.

Lemma pixel_on pow r g b x y :
  off_sphere x y = false ->
  pixel pow (r, g, b) x y =
  (channel pow r x y, channel pow g x y, channel pow b x y, alpha x y).
Proof. intros Hoff. unfold pixel. by rewrite Hoff. Qed.

(** On the sphere [edge_dist] is a number, never a NaN: the two ways of
    asking whether it is below 1 agree. *)
Lemma edge_test_checked :
  all_pixels (fun x y =>
    off_sphere x y
    || Bool.eqb (1 <=? edge_dist x y)%float (negb (edge_dist x y <? 1)%float))
  = true.
Proof. vm_compute. reflexivity. Qed.

Lemma alpha_spec x y :
  in_image x y -> off_sphere x y = false ->
  ((edge_dist x y <? 1)%float = true ->
     Spec.toward_zero (255 * edge_dist x y)%float = Some (alpha x y)) /\
  ((1 <=? edge_dist x y)%float = true -> alpha x y = 255).
Proof.
  intros Hin Hoff.
  destruct (pixel_safe_on x y Hin Hoff) as (_ & _ & _ & _ & Hed).
  pose proof (all_pixels_spec _ edge_test_checked x y Hin) as Hc.
  cbv beta in Hc. rewrite Hoff in Hc. cbn [orb] in Hc. apply eqb_prop in Hc.
  unfold alpha. split.
  - intros Hlt. rewrite Hlt. apply int_toward_zero. by apply Hed.
  - intros Hge. rewrite Hge in Hc.
    destruct (edge_dist x y <? 1)%float; [discriminate|reflexivity].
Qed.

(** C3: on every on-sphere pixel, each stored colour channel is the
    floating-point channel value truncated toward zero and then clamped to
    [0, 255], and in the edge ring the stored alpha is [255 * edge_dist]
    truncated toward zero.  Truncation is not rounding to nearest: the blue
    value 15.9 of base 53 at pixel (97, 97) is stored as 15, and the alpha
    value 126.96 at pixel (63, 4) as 126. *)
Theorem C3_truncation pow r g b x y :
  pow_in_unit pow -> valid_color (r, g, b) ->
  in_image x y -> within 60 x y ->
  (exists img p,
     generate_sphere pow (r, g, b) = Ok img /\
     getpixel img x y = Some p /\
     (exists tr tg tb,
        Spec.toward_zero (channel_value pow r x y) = Some tr /\
        Spec.toward_zero (channel_value pow g x y) = Some tg /\
        Spec.toward_zero (channel_value pow b x y) = Some tb /\
        rgb_of p = (Spec.clamp tr 0 255, Spec.clamp tg 0 255,
                    Spec.clamp tb 0 255)) /\
     ((edge_dist x y <? 1)%float = true ->
        Spec.toward_zero (255 * edge_dist x y)%float = Some (alpha_of p))) /\
  (Spec.toward_zero (channel_value pow 53 97 97) = Some 15 /\
   Spec.to_nearest (channel_value pow 53 97 97) = Some 16) /\
  (Spec.toward_zero (255 * edge_dist 63 4)%float = Some 126 /\
   Spec.to_nearest (255 * edge_dist 63 4)%float = Some 127).
Proof.
  intros Hpow Hrgb Hin Hon. split; [|split].
  - destruct (generate_sphere_total pow (r, g, b) Hpow Hrgb)
      as (img & Hrun & _ & Hget).
    apply off_sphere_exact in Hon; [|exact Hin].
    destruct Hrgb as (Hr & Hg & Hb).
    exists img, (pixel pow (r, g, b) x y).
    split; [exact Hrun|]. split; [by apply Hget|].
    rewrite (pixel_on _ _ _ _ _ _ Hon). split.
    + exists (trunc (channel_value pow r x y)),
             (trunc (channel_value pow g x y)),
             (trunc (channel_value pow b x y)).
      rewrite !(trunc_toward_zero 14) by (by apply channel_value_below).
      rewrite !spec_clamp_eq. repeat split; reflexivity.
    + apply (alpha_spec x y Hin Hon).
  - assert (Hv : channel_value pow 53 97 97
                 = (Z2F 53 * light_intensity 97 97 + 0 * 255 * 0.4)%float).
    { unfold channel_value, specular.
      replace (highlighted 97 97) with false by (vm_compute; reflexivity).
      reflexivity. }
    rewrite Hv. split; vm_compute; reflexivity.
  - split; vm_compute; reflexivity.
Qed.

Lemma C3_truncation_witness :
  (exists img p,
     generate_sphere pow_model (255, 107, 53) = Ok img /\
     getpixel img 63 4 = Some p /\
     (exists tr tg tb,
        Spec.toward_zero (channel_value pow_model 255 63 4) = Some tr /\
        Spec.toward_zero (channel_value pow_model 107 63 4) = Some tg /\
        Spec.toward_zero (channel_value pow_model 53 63 4) = Some tb /\
        rgb_of p = (Spec.clamp tr 0 255, Spec.clamp tg 0 255,
                    Spec.clamp tb 0 255)) /\
     ((edge_dist 63 4 <? 1)%float = true ->
        Spec.toward_zero (255 * edge_dist 63 4)%float = Some (alpha_of p))) /\
  (Spec.toward_zero (channel_value pow_model 53 97 97) = Some 15 /\
   Spec.to_nearest (channel_value pow_model 53 97 97) = Some 16) /\
  (Spec.toward_zero (255 * edge_dist 63 4)%float = Some 126 /\
   Spec.to_nearest (255 * edge_dist 63 4)%float = Some 127).
Proof.
  apply (C3_truncation pow_model 255 107 53 63 4).
  - exact pow_model_in_unit.
  - unfold valid_color. lia.
  - unfold in_image, IMG_SIZE. lia.
  - unfold within, dist2x4. lia.
Defined.

(** C4, as the code has it: on every on-sphere pixel with [edge_dist < 1]
    the stored alpha is [255 * edge_dist] truncated toward zero, and on
    every on-sphere pixel with [edge_dist >= 1] it is 255. *)
Theorem C4_alpha_truncated pow rgb x y :
  pow_in_unit pow -> valid_color rgb ->
  in_image x y -> within 60 x y ->
  exists img p,
    generate_sphere pow rgb = Ok img /\
    getpixel img x y = Some p /\
    ((edge_dist x y <? 1)%float = true ->
       Spec.toward_zero (255 * edge_dist x y)%float = Some (alpha_of p)) /\
    ((1 <=? edge_dist x y)%float = true -> alpha_of p = 255).
Proof.
  intros Hpow Hrgb Hin Hon.
  destruct (generate_sphere_total pow rgb Hpow Hrgb)
    as (img & Hrun & _ & Hget).
  apply off_sphere_exact in Hon; [|exact Hin].
  exists img, (pixel pow rgb x y).
  split; [exact Hrun|]. split; [by apply Hget|].
  destruct rgb as [[r g] b]. rewrite (pixel_on _ _ _ _ _ _ Hon).
  apply (alpha_spec x y Hin Hon).
Qed.

Lemma C4_alpha_truncated_witness :
  exists img p,
    generate_sphere pow_model (255, 255, 255) = Ok img /\
    getpixel img 63 4 = Some p /\
    ((edge_dist 63 4 <? 1)%float = true ->
       Spec.toward_zero (255 * edge_dist 63 4)%float = Some (alpha_of p)) /\
    ((1 <=? edge_dist 63 4)%float = true -> alpha_of p = 255).
Proof.
  apply (C4_alpha_truncated pow_model (255, 255, 255) 63 4).
  - exact pow_model_in_unit.
  - unfold valid_color. lia.
  - unfold in_image, IMG_SIZE. lia.
  - unfold within, dist2x4. lia.
Defined.

(** C4 as stated fails: at the on-sphere pixel (63, 4) of the white sphere
    [edge_dist] is 0.4979 and [255 * edge_dist] is 126.96, which rounds to
    127, while the stored alpha is 126. *)
Lemma C4_counterexample :
  exists img p,
    generate_sphere pow_model (255, 255, 255) = Ok img /\
    getpixel img 63 4 = Some p /\
    within 60 63 4 /\
    (edge_dist 63 4 <? 1)%float = true /\
    Spec.to_nearest (255 * edge_dist 63 4)%float = Some 127 /\
    alpha_of p = 126 /\
    Some (alpha_of p) <> Spec.to_nearest (255 * edge_dist 63 4)%float.
Proof.
  destruct (generate_sphere_total pow_model (255, 255, 255)
              pow_model_in_unit ltac:(unfold valid_color; lia))
    as (img & Hrun & _ & Hget).
  exists img, (pixel pow_model (255, 255, 255) 63 4).
  split; [exact Hrun|].
  split; [apply Hget; unfold in_image, IMG_SIZE; lia|].
  split; [unfold within, dist2x4; lia|].
  repeat split; try (vm_compute; reflexivity).
  vm_compute. discriminate.
Qed.

(** ** Alpha along a ray *)

Lemma alpha_at_checked :
  all_pixels (fun x y => image_alpha x y =? alpha_at (dist2x4 x y)) = true.
Proof. vm_compute. reflexivity. Qed.

Lemma holds_from_spec P n : forall d,
  holds_from n d P = true ->
  forall i, d <= i < d + Z.of_nat n -> P i = true.
Proof.
  induction n as [|n IH]; intros d H i Hi; [lia|].
  cbn [holds_from] in H. apply andb_prop in H as [Hd Hrest].
  destruct (Z.eq_dec i d) as [->|Hne]; [exact Hd|].
  apply (IH (d + 1) Hrest). lia.
Qed.

Lemma alpha_at_step_checked :
  holds_from (Z.to_nat max_dist2x4) 0
    (fun d => alpha_at (d + 1) <=? alpha_at d) = true.
Proof. vm_compute. reflexivity. Qed.

Lemma alpha_at_step d :
  0 <= d < max_dist2x4 -> alpha_at (d + 1) <= alpha_at d.
Proof.
  intros Hd. apply Z.leb_le.
  apply (holds_from_spec _ _ 0 alpha_at_step_checked d).
  unfold max_dist2x4 in *. lia.
Qed.

Lemma alpha_at_antitone d1 d2 :
  0 <= d1 <= d2 -> d2 <= max_dist2x4 -> alpha_at d2 <= alpha_at d1.
Proof.
  intros [H0 Hle] Hmax.
  assert (Hn : forall n : nat,
             d1 + Z.of_nat n <= max_dist2x4 ->
             alpha_at (d1 + Z.of_nat n) <= alpha_at d1).
  { induction n as [|n IH]; intros Hn.
    - rewrite Z.add_0_r. lia.
    - replace (d1 + Z.of_nat (S n)) with (d1 + Z.of_nat n + 1) in * by lia.
      etransitivity; [apply alpha_at_step; lia|]. apply IH. lia. }
  replace d2 with (d1 + Z.of_nat (Z.to_nat (d2 - d1))) by lia.
  apply Hn. lia.
Qed.

Lemma dist2x4_range x y : in_image x y -> 0 <= dist2x4 x y <= max_dist2x4.
Proof.
  unfold in_image, IMG_SIZE, dist2x4, max_dist2x4. intros [Hx Hy].
  pose proof (Z.square_nonneg (2 * x - 127)).
  pose proof (Z.square_nonneg (2 * y - 127)).
  pose proof (Z.mul_nonneg_nonneg (127 - (2 * x - 127)) (127 + (2 * x - 127))
                ltac:(lia) ltac:(lia)).
  pose proof (Z.mul_nonneg_nonneg (127 - (2 * y - 127)) (127 + (2 * y - 127))
                ltac:(lia) ltac:(lia)).
  lia.
Qed.

Lemma image_alpha_at x y :
  in_image x y -> image_alpha x y = alpha_at (dist2x4 x y).
Proof.
  intros Hin. apply Z.eqb_eq.
  exact (all_pixels_spec _ alpha_at_checked x y Hin).
Qed.

Lemma alpha_of_pixel pow rgb x y :
  alpha_of (pixel pow rgb x y) = image_alpha x y.
Proof.
  unfold pixel, image_alpha. destruct rgb as [[r g] b].
  destruct (off_sphere x y); reflexivity.
Qed.

Lemma image_alpha_range x y : in_image x y -> 0 <= image_alpha x y <= 255.
Proof.
  intros Hin. rewrite image_alpha_at by assumption.
  pose proof (dist2x4_range x y Hin) as Hr.
  pose proof (alpha_at_antitone 0 (dist2x4 x y) ltac:(lia) ltac:(lia)) as Hup.
  pose proof (alpha_at_antitone (dist2x4 x y) max_dist2x4 ltac:(lia)
                ltac:(lia)) as Hlo.
  change (alpha_at 0) with 255 in Hup.
  change (alpha_at max_dist2x4) with 0 in Hlo. lia.
Qed.

(** C6: for every base colour with channels in [0, 255], the image is
    produced and the R, G and B values of every one of its pixels lie in
    [0, 255]; so does the alpha value. *)
Theorem C6_channels_in_range pow rgb :
  pow_in_unit pow -> valid_color rgb ->
  exists img,
    generate_sphere pow rgb = Ok img /\
    forall x y, in_image x y ->
      exists r g b a,
        getpixel img x y = Some (r, g, b, a) /\
        0 <= r <= 255 /\ 0 <= g <= 255 /\ 0 <= b <= 255 /\ 0 <= a <= 255.
Proof.
  intros Hpow Hrgb.
  destruct (generate_sphere_total pow rgb Hpow Hrgb) as (img & Hrun & _ & Hget).
  exists img. split; [exact Hrun|]. intros x y Hin.
  rewrite (Hget x y Hin).
  pose proof (image_alpha_range x y Hin) as Ha.
  rewrite <- (alpha_of_pixel pow rgb) in Ha. revert Ha.
  unfold pixel. destruct rgb as [[r g] b].
  destruct (off_sphere x y); cbn [alpha_of snd]; intros Ha.
  - exists 0, 0, 0, 0. repeat split; lia.
  - do 4 eexists. split; [reflexivity|]. unfold channel, clamp. lia.
Qed.

Lemma C6_channels_in_range_witness :
  exists img,
    generate_sphere pow_model (255, 255, 255) = Ok img /\
    forall x y, in_image x y ->
      exists r g b a,
        getpixel img x y = Some (r, g, b, a) /\
        0 <= r <= 255 /\ 0 <= g <= 255 /\ 0 <= b <= 255 /\ 0 <= a <= 255.
Proof.
  apply (C6_channels_in_range pow_model (255, 255, 255)).
  - exact pow_model_in_unit.
  - unfold valid_color. lia.
Defined.

(** C7: along a direction from the centre the alpha of the image does not
    decrease as the distance from the centre decreases; it is 0 beyond the
    radius and 255 at distance [radius - 1] and closer. *)
Theorem C7_alpha_monotone pow rgb :
  pow_in_unit pow -> valid_color rgb ->
  exists img,
    generate_sphere pow rgb = Ok img /\
    (forall x1 y1 x2 y2,
       in_image x1 y1 -> in_image x2 y2 -> same_ray x1 y1 x2 y2 ->
       dist2x4 x1 y1 <= dist2x4 x2 y2 ->
       exists p1 p2,
         getpixel img x1 y1 = Some p1 /\ getpixel img x2 y2 = Some p2 /\
         alpha_of p2 <= alpha_of p1) /\
    (forall x y, in_image x y ->
       exists p, getpixel img x y = Some p /\
         (~ within 60 x y -> alpha_of p = 0) /\
         (within 59 x y -> alpha_of p = 255)).
Proof.
  intros Hpow Hrgb.
  destruct (generate_sphere_total pow rgb Hpow Hrgb)
    as (img & Hrun & _ & Hget).
  exists img. split; [exact Hrun|]. split.
  - intros x1 y1 x2 y2 Hin1 Hin2 _ Hle.
    exists (pixel pow rgb x1 y1), (pixel pow rgb x2 y2).
    split; [by apply Hget|]. split; [by apply Hget|].
    rewrite !alpha_of_pixel, !image_alpha_at by assumption.
    pose proof (dist2x4_range x1 y1 Hin1).
    pose proof (dist2x4_range x2 y2 Hin2).
    apply alpha_at_antitone; lia.
  - intros x y Hin. exists (pixel pow rgb x y).
    split; [by apply Hget|].
    rewrite alpha_of_pixel, image_alpha_at by assumption.
    pose proof (dist2x4_range x y Hin) as Hr. unfold within. split.
    + intros Hfar. unfold alpha_at.
      destruct (14400 <? dist2x4 x y) eqn:E; [reflexivity|lia].
    + intros Hnear.
      pose proof (alpha_at_antitone 0 (dist2x4 x y) ltac:(lia) ltac:(lia))
        as Hup.
      pose proof (alpha_at_antitone (dist2x4 x y) 13924 ltac:(lia)
                    ltac:(unfold max_dist2x4; lia)) as Hlo.
      change (alpha_at 0) with 255 in Hup.
      change (alpha_at 13924) with 255 in Hlo. lia.
Qed.

Lemma C7_alpha_monotone_witness :
  exists img,
    generate_sphere pow_model (255, 107, 53) = Ok img /\
    (forall x1 y1 x2 y2,
       in_image x1 y1 -> in_image x2 y2 -> same_ray x1 y1 x2 y2 ->
       dist2x4 x1 y1 <= dist2x4 x2 y2 ->
       exists p1 p2,
         getpixel img x1 y1 = Some p1 /\ getpixel img x2 y2 = Some p2 /\
         alpha_of p2 <= alpha_of p1) /\
    (forall x y, in_image x y ->
       exists p, getpixel img x y = Some p /\
         (~ within 60 x y -> alpha_of p = 0) /\
         (within 59 x y -> alpha_of p = 255)).
Proof.
  apply (C7_alpha_monotone pow_model (255, 107, 53)).
  - exact pow_model_in_unit.
  - unfold valid_color. lia.
Defined.

(** ** Rounding cannot fall below a power of two either *)

Lemma binary_round_aux_above m e K :
  0 < m -> K < Zdigits2 m + e -> -1021 <= K -> Zdigits2 m + e <= 970 ->
  sf_above K (binary_round_aux prec emax false m e loc_Exact).
Proof.
  intros Hm HK Hlo Hhi. unfold binary_round_aux.
  destruct (shr_fexp_spec m e loc_Exact) as [Hm1 He1]; [lia|].
  destruct (shr_fexp prec emax m e loc_Exact) as [mrs' e'].
  cbn [fst snd] in Hm1, He1.
  pose proof (round_nearest_even_bounds (shr_m mrs') (loc_of_shr_record mrs'))
    as Hrne.
  set (m1 := round_nearest_even (shr_m mrs') (loc_of_shr_record mrs')) in *.
  assert (Ha : 0 <= shr_m mrs') by (rewrite Hm1; apply Z.shiftr_nonneg; lia).
  pose proof (Zdigits2_shiftr m (Z.max 0 (fexp prec emax (Zdigits2 m + e) - e)))
    as Hda.
  rewrite <- Hm1 in Hda. specialize (Hda ltac:(lia) ltac:(lia)).
  pose proof (Zdigits2_le (shr_m mrs') m1 ltac:(lia)) as Hd1lo.
  pose proof (Zdigits2_le m1 (shr_m mrs' + 1) ltac:(lia)) as Hd1hi.
  pose proof (Zdigits2_succ (shr_m mrs') Ha) as Hsucc.
  destruct (shr_fexp_spec m1 e' loc_Exact) as [Hm2 He2]; [lia|].
  destruct (shr_fexp prec emax m1 e' loc_Exact) as [mrs'' e''].
  cbn [fst snd] in Hm2, He2.
  pose proof (Zdigits2_shiftr m1 (Z.max 0 (fexp prec emax (Zdigits2 m1 + e') - e')))
    as Hd2.
  rewrite <- Hm2 in Hd2. specialize (Hd2 ltac:(lia) ltac:(lia)).
  pose proof (Zdigits2_pos m Hm) as Hdm.
  assert (Hb : 0 <= shr_m mrs'') by (rewrite Hm2; apply Z.shiftr_nonneg; lia).
  rewrite !fexp64 in *.
  destruct (shr_m mrs'') as [|p|p] eqn:Ep.
  - exfalso. cbn [Zdigits2] in Hd2. lia.
  - replace (emax - prec) with 971 by reflexivity.
    destruct (e'' <=? 971) eqn:El.
    + cbn [sf_above]. lia.
    + apply Z.leb_gt in El. exfalso. lia.
  - lia.
Qed.

Lemma binary_round_above m e K :
  K < Zdigits2 (Zpos m) + e -> -1021 <= K -> Zdigits2 (Zpos m) + e <= 970 ->
  sf_above K (binary_round prec emax false m e).
Proof.
  intros HK Hlo Hhi. unfold binary_round.
  pose proof (shl_align_digits m e
                (fexp prec emax (Zpos (digits2_pos m) + e))) as Hd.
  destruct (shl_align m e (fexp prec emax (Zpos (digits2_pos m) + e)))
    as [mz ez].
  cbn [fst snd] in Hd. apply binary_round_aux_above; lia.
Qed.

Lemma binary_round_aux_sign m e l :
  match binary_round_aux prec emax false m e l with
  | S754_zero s | S754_infinity s | S754_finite s _ _ => s = false
  | S754_nan => True
  end.
Proof.
  unfold binary_round_aux.
  destruct (shr_fexp prec emax m e l) as [mrs' e'].
  destruct (shr_fexp prec emax _ e' loc_Exact) as [mrs'' e''].
  destruct (shr_m mrs''); try reflexivity; try exact I.
  by destruct (e'' <=? emax - prec).
Qed.

Lemma SFadd_above K j x y :
  sf_above K x -> sf_nonneg y -> sf_below j x -> sf_below j y ->
  -1021 <= K -> j <= 969 ->
  sf_above K (SFadd prec emax x y).
Proof.
  destruct x as [sx|sx| |sx mx ex]; cbn [sf_above]; try tauto.
  destruct sx; [tauto|].
  destruct y as [sy|sy| |sy my ey]; cbn [sf_nonneg sf_below SFadd]; try tauto.
  intros Hx -> Hbx Hby HK Hj.
  pose proof (shl_align_digits mx ex (Z.min ex ey)) as Hdx.
  pose proof (shl_align_digits my ey (Z.min ex ey)) as Hdy.
  rewrite shl_align_snd in Hdx, Hdy by lia.
  set (a := fst (shl_align mx ex (Z.min ex ey))) in *.
  set (b := fst (shl_align my ey (Z.min ex ey))) in *.
  cbn [cond_Zopp]. change (Zpos a + Zpos b) with (Zpos (a + b)).
  cbn [binary_normalize].
  pose proof (Zdigits2_le (Zpos a) (Zpos (a + b)) ltac:(lia)) as Hlo.
  pose proof (Zdigits2_add (Zpos a) (Zpos b) ltac:(lia) ltac:(lia)
                (Zpos (a + b)) ltac:(lia)) as Hhi.
  apply binary_round_above; lia.
Qed.

Lemma SFmul_nonneg j k x y :
  sf_nonneg x -> sf_nonneg y -> sf_below j x -> sf_below k y ->
  -1074 <= j + k <= 970 ->
  sf_nonneg (SFmul prec emax x y).
Proof.
  intros Hx Hy Hbx Hby Hr.
  pose proof (SFmul_below j k x y Hbx Hby Hr) as Hb. revert Hb.
  destruct x as [sx|sx| |sx mx ex]; destruct y as [sy|sy| |sy my ey];
    cbn [sf_nonneg SFmul] in *; try tauto.
  subst sx sy. cbn [xorb].
  pose proof (binary_round_aux_sign (Zpos (mx * my)) (ex + ey) loc_Exact) as Hs.
  destruct (binary_round_aux _ _ _ _ _ _); cbn [sf_below sf_nonneg]; tauto.
Qed.

Lemma nonneg_of_leb k f :
  (0 <=? f)%float = true -> below k f -> nonneg f.
Proof.
  unfold below, nonneg. rewrite FloatAxioms.leb_spec.
  change (Prim2SF 0) with (S754_zero false).
  destruct (Prim2SF f) as [s|s| |s m e]; cbn [sf_below sf_nonneg]; try tauto.
  intros H _. by destruct s.
Qed.

Lemma add_above K j x y :
  above K x -> nonneg y -> below j x -> below j y ->
  -1021 <= K -> j <= 969 ->
  above K (x + y)%float.
Proof. unfold above, nonneg, below. rewrite FloatAxioms.add_spec. apply SFadd_above. Qed.

Lemma mul_nonneg j k x y :
  nonneg x -> nonneg y -> below j x -> below k y ->
  -1074 <= j + k <= 970 ->
  nonneg (x * y)%float.
Proof. unfold nonneg, below. rewrite FloatAxioms.mul_spec. apply SFmul_nonneg. Qed.

Lemma trunc_above K f : 0 <= K -> above K f -> 2 ^ K <= trunc f.
Proof.
  intros HK. unfold above, trunc, int.
  destruct (Prim2SF f) as [s|s| |s m e]; cbn [sf_above]; try tauto.
  destruct s; [tauto|]. intros Hd.
  destruct (0 <=? e) eqn:He.
  - apply Z.leb_le in He. rewrite Z.shiftl_mul_pow2 by lia.
    pose proof (Zdigits2_log2 (Zpos m) ltac:(lia)) as Hl.
    pose proof (Z.log2_spec (Zpos m) ltac:(lia)) as [Hlo _].
    pose proof (Z.log2_nonneg (Zpos m)) as Hnn.
    pose proof (Z.pow_pos_nonneg 2 e ltac:(lia) He) as Hpe.
    destruct (Z.le_gt_cases K (Z.log2 (Zpos m))) as [Hc|Hc].
    + pose proof (Z.pow_le_mono_r 2 K (Z.log2 (Zpos m)) ltac:(lia) Hc) as Hp.
      pose proof (Z.mul_le_mono_nonneg_l 1 (2 ^ e) (Zpos m)
                    ltac:(lia) ltac:(lia)).
      lia.
    + replace K with (Z.log2 (Zpos m) + (K - Z.log2 (Zpos m))) by lia.
      rewrite Z.pow_add_r by lia.
      pose proof (Z.pow_le_mono_r 2 (K - Z.log2 (Zpos m)) e
                    ltac:(lia) ltac:(lia)) as Hp.
      apply Z.mul_le_mono_nonneg; try lia; apply Z.pow_nonneg; lia.
  - apply Z.leb_gt in He.
    pose proof (Zdigits2_shiftr (Zpos m) (- e) ltac:(lia) ltac:(lia)) as Hs.
    set (z := Z.shiftr (Zpos m) (- e)) in *.
    assert (Hz : 0 <= z) by (apply Z.shiftr_nonneg; lia).
    destruct (Z.le_gt_cases (2 ^ K) z) as [Hc|Hc]; [exact Hc|].
    exfalso. destruct (Z.eq_dec z 0) as [Hz0|Hz0].
    + rewrite Hz0 in Hs. change (Zdigits2 0) with 0 in Hs.
      clear - Hs Hd HK. lia.
    + pose proof (Zdigits2_lt_pow2 z K ltac:(lia) HK Hc) as Hlt.
      clear - Hs Hd HK Hlt. lia.
Qed.

Lemma specular_nonneg pow x y :
  pow_in_unit pow -> in_image x y -> off_sphere x y = false ->
  nonneg (specular pow x y).
Proof.
  intros Hpow Hin Hoff.
  apply (nonneg_of_leb 1); [|by apply specular_below].
  unfold specular.
  destruct (pixel_safe_on x y Hin Hoff) as (_ & _ & _ & Hhl & _).
  destruct (highlighted x y) eqn:E; [|reflexivity].
  destruct (Hhl eq_refl) as [Hlt _].
  unfold highlighted in E. apply andb_prop in E as [_ Hrz].
  by destruct (Hpow _ Hrz Hlt).
Qed.

Lemma red_30_30 pow :
  pow_in_unit pow -> 2 ^ 7 <= trunc (channel_value pow 255 30 30).
Proof.
  intros Hpow.
  assert (H30 : in_image 30 30) by (unfold in_image, IMG_SIZE; lia).
  assert (Hon30 : off_sphere 30 30 = false) by (vm_compute; reflexivity).
  assert (Hb255 : below 8 255%float) by (unfold below; vm_compute; discriminate).
  assert (Hn255 : nonneg 255%float) by (unfold nonneg; vm_compute; reflexivity).
  assert (Hb04 : below 0 0.4%float) by (unfold below; vm_compute; discriminate).
  assert (Hn04 : nonneg 0.4%float) by (unfold nonneg; vm_compute; reflexivity).
  pose proof (specular_below pow 30 30 Hpow H30 Hon30) as Hbs.
  pose proof (specular_nonneg pow 30 30 Hpow H30 Hon30) as Hns.
  pose proof (mul_below 1 8 _ _ Hbs Hb255 ltac:(lia)) as Hb1.
  pose proof (mul_nonneg 1 8 _ _ Hns Hn255 Hbs Hb255 ltac:(lia)) as Hn1.
  pose proof (mul_below _ 0 _ _ Hb1 Hb04 ltac:(lia)) as Hb2.
  pose proof (mul_nonneg _ 0 _ _ Hn1 Hn04 Hb1 Hb04 ltac:(lia)) as Hn2.
  apply trunc_above; [lia|]. unfold channel_value.
  apply (add_above 7 11 _ _); [|exact Hn2| |exact Hb2|lia|lia].
  - unfold above. vm_compute. reflexivity.
  - unfold below. vm_compute. discriminate.
Qed.

(** C9: for base colour (255, 107, 53) the image is produced.  Each channel
    stored at (30, 30) and at (97, 97), both on the sphere, is the clamped
    integer part of the pre-specular value [base * light_intensity] plus
    the specular term, which is zero at (97, 97), where the pixel is
    (76, 32, 15, 255).  The combined pre-specular intensity at (30, 30) is
    strictly higher than at (97, 97), as floats and as integer channels,
    and so is the sum of the channels stored, whatever the specular term
    adds.  The pixel at (5, 5), farther than the radius from the centre, is
    transparent black. *)
Theorem C9_scenario pow :
  pow_in_unit pow ->
  exists img r30 g30 b30,
    generate_sphere pow (255, 107, 53) = Ok img /\
    within 60 30 30 /\ within 60 97 97 /\ ~ within 60 5 5 /\
    getpixel img 30 30 = Some (r30, g30, b30, 255) /\
    r30 = clamp (trunc (pre_specular 255 30 30
                        + specular pow 30 30 * 255 * 0.4)%float) /\
    g30 = clamp (trunc (pre_specular 107 30 30
                        + specular pow 30 30 * 255 * 0.4)%float) /\
    b30 = clamp (trunc (pre_specular 53 30 30
                        + specular pow 30 30 * 255 * 0.4)%float) /\
    getpixel img 97 97
    = Some (clamp (trunc (pre_specular 255 97 97)),
            clamp (trunc (pre_specular 107 97 97)),
            clamp (trunc (pre_specular 53 97 97)), 255) /\
    pre_specular_total (255, 107, 53) 97 97 = 76 + 32 + 15 /\
    PrimFloat.ltb (pre_specular_sum (255, 107, 53) 97 97)
                  (pre_specular_sum (255, 107, 53) 30 30) = true /\
    pre_specular_total (255, 107, 53) 97 97
    < pre_specular_total (255, 107, 53) 30 30 /\
    76 + 32 + 15 < r30 + g30 + b30 /\
    getpixel img 5 5 = Some (0, 0, 0, 0).
Proof.
  intros Hpow.
  destruct (generate_sphere_total pow (255, 107, 53) Hpow
              ltac:(unfold valid_color; lia)) as (img & Hrun & _ & Hget).
  assert (H30 : in_image 30 30) by (unfold in_image, IMG_SIZE; lia).
  assert (H97 : in_image 97 97) by (unfold in_image, IMG_SIZE; lia).
  assert (H5 : in_image 5 5) by (unfold in_image, IMG_SIZE; lia).
  assert (Hon30 : off_sphere 30 30 = false) by (vm_compute; reflexivity).
  assert (Hon97 : off_sphere 97 97 = false) by (vm_compute; reflexivity).
  assert (Hoff5 : off_sphere 5 5 = true) by (vm_compute; reflexivity).
  assert (Ha30 : alpha 30 30 = 255) by (vm_compute; reflexivity).
  assert (Ha97 : alpha 97 97 = 255) by (vm_compute; reflexivity).
  assert (Hh97 : highlighted 97 97 = false) by (vm_compute; reflexivity).
  assert (Hs97 : specular pow 97 97 = 0%float).
  { unfold specular. rewrite Hh97. reflexivity. }
  pose proof (red_30_30 pow Hpow) as Hr. change (2 ^ 7) with 128 in Hr.
  exists img, (channel pow 255 30 30), (channel pow 107 30 30),
         (channel pow 53 30 30).
  split; [exact Hrun|].
  split; [unfold within, dist2x4; lia|].
  split; [unfold within, dist2x4; lia|].
  split; [unfold within, dist2x4; lia|].
  split.
  { rewrite (Hget 30 30 H30), (pixel_on _ _ _ _ _ _ Hon30), Ha30.
    reflexivity. }
  split; [reflexivity|]. split; [reflexivity|]. split; [reflexivity|].
  split.
  { rewrite (Hget 97 97 H97), (pixel_on _ _ _ _ _ _ Hon97), Ha97.
    unfold channel, channel_value, pre_specular. rewrite Hs97.
    assert (Hz : forall c, 0 <= c <= 255 ->
              trunc (Z2F c * light_intensity 97 97 + 0 * 255 * 0.4)%float
              = trunc (Z2F c * light_intensity 97 97)%float).
    { intros c Hc. apply Z.eqb_eq.
      assert (Hall : forallb (fun c =>
                trunc (Z2F c * light_intensity 97 97 + 0 * 255 * 0.4)%float
                =? trunc (Z2F c * light_intensity 97 97)%float)
                (seqZ 0 256) = true) by (vm_compute; reflexivity).
      rewrite forallb_forall in Hall. apply Hall.
      apply list_elem_of_In, elem_of_seqZ. lia. }
    rewrite !Hz by lia. reflexivity. }
  split; [vm_compute; reflexivity|].
  split; [vm_compute; reflexivity|].
  split; [vm_compute; reflexivity|].
  split.
  { unfold channel at 1. fold (channel_value pow 255 30 30) in Hr.
    unfold channel, clamp. clear - Hr. lia. }
  rewrite (Hget 5 5 H5). unfold pixel. rewrite Hoff5. reflexivity.
Qed.

Lemma C9_scenario_witness :
  exists img r30 g30 b30,
    generate_sphere pow_model (255, 107, 53) = Ok img /\
    within 60 30 30 /\ within 60 97 97 /\ ~ within 60 5 5 /\
    getpixel img 30 30 = Some (r30, g30, b30, 255) /\
    r30 = clamp (trunc (pre_specular 255 30 30
                        + specular pow_model 30 30 * 255 * 0.4)%float) /\
    g30 = clamp (trunc (pre_specular 107 30 30
                        + specular pow_model 30 30 * 255 * 0.4)%float) /\
    b30 = clamp (trunc (pre_specular 53 30 30
                        + specular pow_model 30 30 * 255 * 0.4)%float) /\
    getpixel img 97 97
    = Some (clamp (trunc (pre_specular 255 97 97)),
            clamp (trunc (pre_specular 107 97 97)),
            clamp (trunc (pre_specular 53 97 97)), 255) /\
    pre_specular_total (255, 107, 53) 97 97 = 76 + 32 + 15 /\
    PrimFloat.ltb (pre_specular_sum (255, 107, 53) 97 97)
                  (pre_specular_sum (255, 107, 53) 30 30) = true /\
    pre_specular_total (255, 107, 53) 97 97
    < pre_specular_total (255, 107, 53) 30 30 /\
    76 + 32 + 15 < r30 + g30 + b30 /\
    getpixel img 5 5 = Some (0, 0, 0, 0).
Proof. apply (C9_scenario pow_model). exact pow_model_in_unit. Defined.

(** ** Parsing colour strings *)










Lemma in_all_ascii c : In c all_ascii.
Proof.
  unfold all_ascii. rewrite <- (ascii_nat_embedding c).
  apply in_map, in_seq. pose proof (nat_ascii_bounded c). lia.
Qed.

Lemma slice_ok_2_checked :
  forallb (fun c1 => forallb (fun c2 => slice_ok [c1; c2]) all_ascii)
          all_ascii = true.
Proof. vm_compute. reflexivity. Qed.

Lemma slice_ok_1_checked :
  forallb (fun c => slice_ok [c]) all_ascii = true.
Proof. vm_compute. reflexivity. Qed.

Lemma slice_ok_short s : (length s <= 2)%nat -> slice_ok s = true.
Proof.
  destruct s as [|c1 [|c2 [|c3 s]]]; cbn [length]; intros Hlen.
  - vm_compute. reflexivity.
  - pose proof slice_ok_1_checked as H. rewrite forallb_forall in H.
    apply H, in_all_ascii.
  - pose proof slice_ok_2_checked as H. rewrite forallb_forall in H.
    specialize (H c1 (in_all_ascii c1)). rewrite forallb_forall in H.
    apply H, in_all_ascii.
  - lia.
Qed.

Lemma slice_length s i j : (length (slice s i j) <= j - i)%nat.
Proof. unfold slice. rewrite length_take. lia. Qed.

Lemma result_eqb_eq a b : result_eqb a b = true -> a = b.
Proof.
  destruct a as [m|[]], b as [n|[]]; cbn; try discriminate;
    try reflexivity.
  intros H. apply Z.eqb_eq in H. by subst.
Qed.

Lemma int16_slice_facts s i j :
  (j - i <= 2)%nat ->
  (forall e, int16 (slice s i j) = Raise e -> e = ValueError) /\
  (forall v, int16 (slice s i j) = Ok v -> -15 <= v <= 255) /\
  int16 (map upper (slice s i j)) = int16 (slice s i j).
Proof.
  intros Hij.
  pose proof (slice_ok_short (slice s i j)
                ltac:(pose proof (slice_length s i j); lia)) as H.
  unfold slice_ok in H. apply andb_prop in H as [H1 H2].
  split; [|split].
  - intros e He. rewrite He in H1. by destruct e.
  - intros v Hv. rewrite Hv in H1. apply andb_prop in H1 as [Ha Hb]. lia.
  - by apply result_eqb_eq.
Qed.





Lemma hex_to_rgb_raises s e : hex_to_rgb s = Raise e -> e = ValueError.
Proof.
  unfold hex_to_rgb, mbind, result_bind.
  destruct (int16_slice_facts (lstrip "#" s) 0 2 ltac:(lia)) as (H1 & _ & _).
  destruct (int16_slice_facts (lstrip "#" s) 2 4 ltac:(lia)) as (H2 & _ & _).
  destruct (int16_slice_facts (lstrip "#" s) 4 6 ltac:(lia)) as (H3 & _ & _).
  destruct (int16 (slice (lstrip "#" s) 0 2)) as [v1|e1]; cbn [Py.bind];
    [|intros [= <-]; by apply H1].
  destruct (int16 (slice (lstrip "#" s) 2 4)) as [v2|e2]; cbn [Py.bind];
    [|intros [= <-]; by apply H2].
  destruct (int16 (slice (lstrip "#" s) 4 6)) as [v3|e3]; cbn [Py.bind];
    [discriminate|intros [= <-]; by apply H3].
Qed.


(** ** The driver loop *)

Lemma for_entries_app pow save es1 es2 : forall st,
  for_entries pow save (es1 ++ es2) st
  = match for_entries pow save es1 st with
    | (st1, None) => for_entries pow save es2 st1
    | (st1, Some e) => (st1, Some e)
    end.
Proof.
  induction es1 as [|e es1 IH]; intros st; cbn [app for_entries].
  - reflexivity.
  - destruct (process_entry pow save st e); [apply IH|reflexivity].
Qed.






(** * Further properties of generate_spheres.py *)

Lemma SFadd_comm x y : SFadd prec emax x y = SFadd prec emax y x.
Proof.
  destruct x as [sx|sx| |sx mx ex]; destruct y as [sy|sy| |sy my ey];
    cbn [SFadd]; try reflexivity;
    try (destruct sx, sy; reflexivity).
  rewrite (Z.min_comm ey ex). f_equal. apply Z.add_comm.
Qed.

Lemma float_add_comm x y : (x + y)%float = (y + x)%float.
Proof.
  apply Prim2SF_inj. rewrite !FloatAxioms.add_spec. apply SFadd_comm.
Qed.

Lemma sf_below_opp k x : sf_below k x -> sf_below k (SFopp x).
Proof. destruct x; cbn; auto. Qed.

Lemma of_uint63_below n : below 64 (of_uint63 n).
Proof.
  unfold below. rewrite of_uint63_spec.
  change 64 with (63 + 1). apply binary_normalize_below; [|lia].
  pose proof (Uint63.to_Z_bounded n) as Hb.
  change wB with (2 ^ 63) in Hb.
  destruct (Z.eq_dec (to_Z n) 0) as [->|Hne]; [cbn; lia|].
  rewrite Z.add_0_r. apply Zdigits2_lt_pow2; lia.
Qed.

Lemma Z2F_below_wide c : below 64 (Z2F c).
Proof.
  unfold Z2F. destruct (c <? 0).
  - unfold below. rewrite FloatAxioms.opp_spec. apply sf_below_opp.
    apply of_uint63_below.
  - apply of_uint63_below.
Qed.

Lemma channel_sum_below_wide fc li s :
  below 64 fc -> below 1 li -> below 1 s ->
  below 68 (fc * li + s * 255 * 0.4)%float.
Proof.
  intros Hfc Hli Hs.
  assert (H255 : below 8 255%float) by (apply below_byte; reflexivity).
  assert (H04 : below 1 0.4%float) by (apply below_unit; reflexivity).
  pose proof (mul_below 64 1 fc li Hfc Hli ltac:(lia)) as Ha.
  pose proof (mul_below 1 8 s 255%float Hs H255 ltac:(lia)) as Hb.
  pose proof (mul_below _ _ _ _ Hb H04 ltac:(lia)) as Hc.
  pose proof (add_below _ _ _ _ Ha Hc ltac:(lia)) as Hd.
  eapply below_mono; [|exact Hd]. lia.
Qed.

Lemma shade_total_wide pow rgb x y :
  pow_in_unit pow -> in_image x y ->
  shade pow rgb x y =
  Ok (if off_sphere x y then None else Some (pixel pow rgb x y)).
Proof.
  intros Hpow Hin. destruct rgb as [[r g] b].
  unfold shade, pixel. cbv zeta.
  change (Z2F x - CENTER)%float with (offset x).
  change (Z2F y - CENTER)%float with (offset y).
  change (offset x * offset x + offset y * offset y)%float with (dist_sq x y).
  change (RADIUS * RADIUS <? dist_sq x y)%float with (off_sphere x y).
  destruct (off_sphere x y) eqn:Hoff; [reflexivity|].
  destruct (pixel_safe_on x y Hin Hoff) as (Hs1 & Hs2 & Hli & Hhl & Hed).
  pose proof (specular_below pow x y Hpow Hin Hoff) as Hsp.
  unfold math_sqrt, truediv. rewrite Hs1, Hs2.
  change (RADIUS =? 0)%float with false.
  unfold mbind, result_bind. cbn [Py.bind].
  change (offset x / RADIUS)%float with (normal_x x).
  change (offset y / RADIUS)%float with (normal_y y).
  change (PrimFloat.sqrt (RADIUS * RADIUS - dist_sq x y) / RADIUS)%float
    with (normal_z x y).
  change (max0 (normal_x x * LX + normal_y y * LY + normal_z x y * LZ)%float)
    with (diffuse x y).
  change (2 * diffuse x y * normal_z x y - LZ)%float with (reflect_z x y).
  change (0.3 + diffuse x y * 0.7)%float with (light_intensity x y).
  change (RADIUS - PrimFloat.sqrt (dist_sq x y))%float with (edge_dist x y).
  assert (Hspec :
    (if (0 <? diffuse x y)%float
     then if (0 <? reflect_z x y)%float
          then float_pow20 pow (reflect_z x y) else Ok 0%float
     else Ok 0%float) = Ok (specular pow x y)).
  { unfold specular, highlighted in *.
    destruct (0 <? diffuse x y)%float; [|reflexivity].
    destruct (0 <? reflect_z x y)%float; [|reflexivity].
    cbn [andb] in *. destruct (Hhl eq_refl) as [_ Hne].
    destruct (below_finite _ _ Hsp) as [Hnan Hinf].
    unfold float_pow20. rewrite Hne. cbv zeta. by rewrite Hnan, Hinf. }
  rewrite Hspec. cbn [Py.bind].
  rewrite !(int_below 68)
    by (apply channel_sum_below_wide;
        [apply Z2F_below_wide|assumption|assumption]).
  cbn [Py.bind]. unfold channel, channel_value, clamp, alpha.
  destruct (edge_dist x y <? 1)%float.
  - rewrite (Hed eq_refl). reflexivity.
  - reflexivity.
Qed.

Lemma generate_sphere_total_wide pow rgb :
  pow_in_unit pow ->
  exists img,
    generate_sphere pow rgb = Ok img /\ wf_image img /\
    forall x y, in_image x y -> getpixel img x y = Some (pixel pow rgb x y).
Proof.
  intros Hpow.
  destruct (generate_sphere_spec pow rgb
              (fun x y => if off_sphere x y then None
                          else Some (pixel pow rgb x y)))
    as (img & Hrun & Hwf & Hget).
  { intros x y Hin. by apply shade_total_wide. }
  exists img. split; [exact Hrun|]. split; [exact Hwf|].
  intros x y Hin. rewrite (Hget x y Hin). unfold pixel.
  destruct (off_sphere x y); reflexivity.
Qed.

(** ** An image exactly when no pixel raises *)

Lemma for_range_ok body l : forall img img',
  for_range body l img = Ok img' ->
  Forall (fun i => exists im im', body i im = Ok im') l.
Proof.
  induction l as [|i l IH]; intros img img' H; [constructor|].
  cbn [for_range] in H. unfold mbind, result_bind in H.
  destruct (body i img) as [im1|e] eqn:Hb; cbn [Py.bind] in H;
    [|discriminate].
  constructor; [by exists img, im1|]. by eapply IH.
Qed.

Lemma generate_sphere_ok_pixels pow rgb img :
  generate_sphere pow rgb = Ok img ->
  forall x y, in_image x y -> exists o, shade pow rgb x y = Ok o.
Proof.
  intros Hrun x y [Hx Hy]. unfold generate_sphere in Hrun.
  apply for_range_ok in Hrun. rewrite Forall_forall in Hrun.
  destruct (Hrun y) as (im & im' & Hrow).
  { apply elem_of_seqZ. lia. }
  apply for_range_ok in Hrow. rewrite Forall_forall in Hrow.
  destruct (Hrow x) as (im1 & im1' & Hstep).
  { apply elem_of_seqZ. lia. }
  unfold pixel_step, mbind, result_bind in Hstep.
  destruct (shade pow rgb x y) as [o|e]; [by exists o|discriminate].
Qed.

(** X1: An image is returned exactly when the shading of every pixel of the
    128 x 128 grid completes: an exception at any one pixel aborts the whole
    call and no partial image comes back. *)
Theorem generate_sphere_ok_iff pow rgb :
  (exists img, generate_sphere pow rgb = Ok img) <->
  (forall x y, in_image x y -> exists o, shade pow rgb x y = Ok o).
Proof.
  split.
  - intros [img Hrun]. by eapply generate_sphere_ok_pixels.
  - intros Hall.
    pose (f := fun x y => match shade pow rgb x y with
                          | Ok o => o
                          | Raise _ => None
                          end).
    destruct (generate_sphere_spec pow rgb f) as (img & Hrun & _).
    { intros x y Hin. destruct (Hall x y Hin) as [o Ho].
      unfold f. by rewrite Ho. }
    by exists img.
Qed.

(** ** Symmetries of the image *)

Lemma dist_sq_transpose x y : dist_sq x y = dist_sq y x.
Proof. unfold dist_sq. apply float_add_comm. Qed.

Lemma diffuse_transpose x y : diffuse x y = diffuse y x.
Proof.
  unfold diffuse, normal_z, normal_x, normal_y.
  rewrite (dist_sq_transpose x y).
  change LY with LX.
  by rewrite (float_add_comm (offset x / RADIUS * LX) (offset y / RADIUS * LX)).
Qed.

Lemma pixel_transpose pow rgb x y : pixel pow rgb x y = pixel pow rgb y x.
Proof.
  assert (Hd := dist_sq_transpose x y). assert (Hf := diffuse_transpose x y).
  unfold pixel, channel, channel_value, specular, highlighted, reflect_z,
    light_intensity, alpha, edge_dist, off_sphere, normal_z.
  by rewrite Hd, Hf.
Qed.

(** X2: The light leans equally along x and y, so the image is symmetric
    about its main diagonal: pixels (x, y) and (y, x) hold the same value. *)
Theorem image_transpose pow rgb :
  pow_in_unit pow -> valid_color rgb ->
  exists img,
    generate_sphere pow rgb = Ok img /\
    forall x y, in_image x y -> getpixel img x y = getpixel img y x.
Proof.
  intros Hpow Hrgb.
  destruct (generate_sphere_total pow rgb Hpow Hrgb) as (img & Hrun & _ & Hget).
  exists img. split; [exact Hrun|]. intros x y Hin.
  rewrite (Hget x y Hin), (Hget y x) by (unfold in_image in *; tauto).
  by rewrite pixel_transpose.
Qed.

Lemma image_transpose_witness :
  exists img,
    generate_sphere pow_model (255, 107, 53) = Ok img /\
    forall x y, in_image x y -> getpixel img x y = getpixel img y x.
Proof.
  apply (image_transpose pow_model (255, 107, 53)).
  - exact pow_model_in_unit.
  - unfold valid_color. lia.
Defined.

Lemma dist2x4_flip x y : dist2x4 (127 - x) y = dist2x4 x y.
Proof. unfold dist2x4. lia. Qed.

Lemma dist2x4_swap x y : dist2x4 x y = dist2x4 y x.
Proof. unfold dist2x4. lia. Qed.

(** X3: The alpha channel is symmetric under the horizontal and the vertical
    mirror of the image. *)
Theorem alpha_mirror pow rgb :
  pow_in_unit pow -> valid_color rgb ->
  exists img,
    generate_sphere pow rgb = Ok img /\
    forall x y, in_image x y ->
      exists p ph pv,
        getpixel img x y = Some p /\
        getpixel img (127 - x) y = Some ph /\
        getpixel img x (127 - y) = Some pv /\
        alpha_of ph = alpha_of p /\ alpha_of pv = alpha_of p.
Proof.
  intros Hpow Hrgb.
  destruct (generate_sphere_total pow rgb Hpow Hrgb) as (img & Hrun & _ & Hget).
  exists img. split; [exact Hrun|]. intros x y Hin.
  assert (Hh : in_image (127 - x) y) by (unfold in_image, IMG_SIZE in *; lia).
  assert (Hv : in_image x (127 - y)) by (unfold in_image, IMG_SIZE in *; lia).
  exists (pixel pow rgb x y), (pixel pow rgb (127 - x) y),
         (pixel pow rgb x (127 - y)).
  rewrite !Hget by assumption. repeat split.
  - by rewrite !alpha_of_pixel, !image_alpha_at, dist2x4_flip.
  - rewrite !alpha_of_pixel, !image_alpha_at by assumption.
    by rewrite (dist2x4_swap x (127 - y)), dist2x4_flip, dist2x4_swap.
Qed.

Lemma alpha_mirror_witness :
  exists img,
    generate_sphere pow_model (255, 107, 53) = Ok img /\
    forall x y, in_image x y ->
      exists p ph pv,
        getpixel img x y = Some p /\
        getpixel img (127 - x) y = Some ph /\
        getpixel img x (127 - y) = Some pv /\
        alpha_of ph = alpha_of p /\ alpha_of pv = alpha_of p.
Proof.
  apply (alpha_mirror pow_model (255, 107, 53)).
  - exact pow_model_in_unit.
  - unfold valid_color. lia.
Defined.

(** ** The extent of the sphere *)

Lemma alpha_support_checked :
  all_pixels (fun x y =>
    if withinb 59 x y then image_alpha x y =? 255
    else if withinb 60 x y
         then (7 <=? image_alpha x y) && (image_alpha x y <=? 238)
         else image_alpha x y =? 0) = true.
Proof. vm_compute. reflexivity. Qed.

(** X4: Alpha is positive exactly within distance 60 of the centre and is 255
    exactly within distance 59; on the ring in between it lies between 7
    and 238. *)
Theorem alpha_support pow rgb :
  pow_in_unit pow -> valid_color rgb ->
  exists img,
    generate_sphere pow rgb = Ok img /\
    forall x y, in_image x y ->
      exists p, getpixel img x y = Some p /\
        (within 60 x y <-> 0 < alpha_of p) /\
        (within 59 x y <-> alpha_of p = 255) /\
        (within 60 x y -> ~ within 59 x y -> 7 <= alpha_of p <= 238).
Proof.
  intros Hpow Hrgb.
  destruct (generate_sphere_total pow rgb Hpow Hrgb) as (img & Hrun & _ & Hget).
  exists img. split; [exact Hrun|]. intros x y Hin.
  exists (pixel pow rgb x y). split; [by apply Hget|].
  rewrite alpha_of_pixel.
  pose proof (all_pixels_spec _ alpha_support_checked x y Hin) as H.
  cbv beta in H. unfold withinb, within in *.
  destruct (Z.leb_spec (dist2x4 x y) (4 * 59 * 59));
    destruct (Z.leb_spec (dist2x4 x y) (4 * 60 * 60));
    try (apply andb_prop in H as [H1 H2]); lia.
Qed.

Lemma alpha_support_witness :
  exists img,
    generate_sphere pow_model (255, 107, 53) = Ok img /\
    forall x y, in_image x y ->
      exists p, getpixel img x y = Some p /\
        (within 60 x y <-> 0 < alpha_of p) /\
        (within 59 x y <-> alpha_of p = 255) /\
        (within 60 x y -> ~ within 59 x y -> 7 <= alpha_of p <= 238).
Proof.
  apply (alpha_support pow_model (255, 107, 53)).
  - exact pow_model_in_unit.
  - unfold valid_color. lia.
Defined.

(** X5: The four outermost rows and columns on each side are fully
    transparent, and the sphere reaches every row and column from 4 to 123. *)
Theorem transparent_margin pow rgb :
  pow_in_unit pow -> valid_color rgb ->
  exists img,
    generate_sphere pow rgb = Ok img /\
    (forall x y, in_image x y ->
       x < 4 \/ 123 < x \/ y < 4 \/ 123 < y ->
       getpixel img x y = Some (0, 0, 0, 0)) /\
    (forall k, 4 <= k <= 123 ->
       exists p q, getpixel img k 63 = Some p /\ getpixel img 63 k = Some q /\
                   0 < alpha_of p /\ 0 < alpha_of q).
Proof.
  intros Hpow Hrgb.
  destruct (generate_sphere_total pow rgb Hpow Hrgb) as (img & Hrun & _ & Hget).
  exists img. split; [exact Hrun|]. split.
  - intros x y Hin Hout. rewrite (Hget x y Hin). unfold pixel.
    destruct (off_sphere x y) eqn:E; [reflexivity|].
    apply off_sphere_exact in E; [|exact Hin].
    unfold within, dist2x4, in_image, IMG_SIZE in *.
    pose proof (Z.square_nonneg (2 * x - 127)).
    pose proof (Z.square_nonneg (2 * y - 127)).
    destruct Hout as [Ho|[Ho|[Ho|Ho]]].
    + pose proof (Z.mul_le_mono_nonneg 121 (- (2 * x - 127))
                    121 (- (2 * x - 127))). lia.
    + pose proof (Z.mul_le_mono_nonneg 121 (2 * x - 127) 121 (2 * x - 127)).
      lia.
    + pose proof (Z.mul_le_mono_nonneg 121 (- (2 * y - 127))
                    121 (- (2 * y - 127))). lia.
    + pose proof (Z.mul_le_mono_nonneg 121 (2 * y - 127) 121 (2 * y - 127)).
      lia.
  - intros k Hk.
    assert (H1 : in_image k 63) by (unfold in_image, IMG_SIZE; lia).
    assert (H2 : in_image 63 k) by (unfold in_image, IMG_SIZE; lia).
    exists (pixel pow rgb k 63), (pixel pow rgb 63 k).
    rewrite !Hget by assumption. split; [reflexivity|]. split; [reflexivity|].
    rewrite !alpha_of_pixel.
    pose proof (all_pixels_spec _ alpha_support_checked k 63 H1) as Ha.
    pose proof (all_pixels_spec _ alpha_support_checked 63 k H2) as Hb.
    cbv beta in Ha, Hb. unfold withinb, dist2x4 in *.
    assert (Hd : (2 * k - 127) * (2 * k - 127) <= 14161).
    { pose proof (Z.mul_nonneg_nonneg (119 - (2 * k - 127))
                    (119 + (2 * k - 127)) ltac:(lia) ltac:(lia)). lia. }
    split.
    + destruct (Z.leb_spec ((2 * k - 127) * (2 * k - 127)
                            + (2 * 63 - 127) * (2 * 63 - 127)) (4 * 59 * 59)).
      * apply Z.eqb_eq in Ha. lia.
      * destruct (Z.leb_spec ((2 * k - 127) * (2 * k - 127)
                            + (2 * 63 - 127) * (2 * 63 - 127)) (4 * 60 * 60));
          [|lia].
        apply andb_prop in Ha as [Ha _]. apply Z.leb_le in Ha. lia.
    + destruct (Z.leb_spec ((2 * 63 - 127) * (2 * 63 - 127)
                            + (2 * k - 127) * (2 * k - 127)) (4 * 59 * 59)).
      * apply Z.eqb_eq in Hb. lia.
      * destruct (Z.leb_spec ((2 * 63 - 127) * (2 * 63 - 127)
                            + (2 * k - 127) * (2 * k - 127)) (4 * 60 * 60));
          [|lia].
        apply andb_prop in Hb as [Hb _]. apply Z.leb_le in Hb. lia.
Qed.

Lemma transparent_margin_witness :
  exists img,
    generate_sphere pow_model (255, 107, 53) = Ok img /\
    (forall x y, in_image x y ->
       x < 4 \/ 123 < x \/ y < 4 \/ 123 < y ->
       getpixel img x y = Some (0, 0, 0, 0)) /\
    (forall k, 4 <= k <= 123 ->
       exists p q, getpixel img k 63 = Some p /\ getpixel img 63 k = Some q /\
                   0 < alpha_of p /\ 0 < alpha_of q).
Proof.
  apply (transparent_margin pow_model (255, 107, 53)).
  - exact pow_model_in_unit.
  - unfold valid_color. lia.
Defined.

(** ** The side facing away from the light *)

Lemma shadow_channel_checked :
  forallb (fun c => trunc (Z2F c * 0.3 + 0 * 255 * 0.4)%float
                    =? trunc (Z2F c * 0.3)%float) (seqZ 0 256) = true.
Proof. vm_compute. reflexivity. Qed.

Lemma max0_zero v : (0 <? max0 v)%float = false -> max0 v = 0%float.
Proof.
  unfold max0. destruct (0 <? v)%float eqn:E; [|reflexivity].
  intros H. rewrite E in H. discriminate.
Qed.

(** X6: On the side facing away from the light, where the diffuse term is not
    positive, each channel is thirty percent of the base channel, whatever
    the position. *)
Theorem shadow_is_flat pow r g b x y :
  pow_in_unit pow -> valid_color (r, g, b) ->
  in_image x y -> within 60 x y ->
  (0 <? diffuse x y)%float = false ->
  exists img p,
    generate_sphere pow (r, g, b) = Ok img /\
    getpixel img x y = Some p /\
    rgb_of p = (shadow_channel r, shadow_channel g, shadow_channel b).
Proof.
  intros Hpow Hrgb Hin Hon Hdark.
  destruct (generate_sphere_total pow (r, g, b) Hpow Hrgb)
    as (img & Hrun & _ & Hget).
  apply off_sphere_exact in Hon; [|exact Hin].
  exists img, (pixel pow (r, g, b) x y).
  split; [exact Hrun|]. split; [by apply Hget|].
  rewrite (pixel_on _ _ _ _ _ _ Hon). cbn [rgb_of fst].
  assert (Hd : diffuse x y = 0%float) by (by apply max0_zero).
  assert (Hc : forall c, 0 <= c <= 255 -> channel pow c x y = shadow_channel c).
  { intros c Hc. unfold channel, shadow_channel, channel_value, specular,
      highlighted, light_intensity.
    rewrite Hdark, Hd. cbn [andb].
    change (0.3 + 0 * 0.7)%float with 0.3%float.
    pose proof shadow_channel_checked as H. rewrite forallb_forall in H.
    f_equal. apply Z.eqb_eq, H.
    apply list_elem_of_In, elem_of_seqZ. lia. }
  destruct Hrgb as (Hr & Hg & Hb). by rewrite !Hc.
Qed.

Lemma shadow_is_flat_witness :
  exists img p,
    generate_sphere pow_model (255, 107, 53) = Ok img /\
    getpixel img 97 97 = Some p /\
    rgb_of p = (shadow_channel 255, shadow_channel 107, shadow_channel 53).
Proof.
  apply (shadow_is_flat pow_model 255 107 53 97 97).
  - exact pow_model_in_unit.
  - unfold valid_color. lia.
  - unfold in_image, IMG_SIZE. lia.
  - unfold within, dist2x4. lia.
  - vm_compute. reflexivity.
Defined.

(** ** Base colours outside [0, 255] *)

(** X7: Base colours outside 0..255, negative ones included, still give a
    full image, with every channel of every pixel in 0..255. *)
Theorem generate_sphere_any_color pow rgb :
  pow_in_unit pow -> int63_color rgb ->
  exists img,
    generate_sphere pow rgb = Ok img /\ wf_image img /\
    forall x y, in_image x y ->
      exists r g b a,
        getpixel img x y = Some (r, g, b, a) /\
        0 <= r <= 255 /\ 0 <= g <= 255 /\ 0 <= b <= 255 /\ 0 <= a <= 255.
Proof.
  intros Hpow _.
  destruct (generate_sphere_total_wide pow rgb Hpow)
    as (img & Hrun & Hwf & Hget).
  exists img. split; [exact Hrun|]. split; [exact Hwf|]. intros x y Hin.
  rewrite (Hget x y Hin).
  pose proof (image_alpha_range x y Hin) as Ha.
  rewrite <- (alpha_of_pixel pow rgb) in Ha. revert Ha.
  unfold pixel. destruct rgb as [[r g] b].
  destruct (off_sphere x y); cbn [alpha_of snd]; intros Ha.
  - exists 0, 0, 0, 0. repeat split; lia.
  - do 4 eexists. split; [reflexivity|]. unfold channel, clamp. lia.
Qed.

Lemma generate_sphere_any_color_witness :
  exists img,
    generate_sphere pow_model (-15, 300, 1000000) = Ok img /\ wf_image img /\
    forall x y, in_image x y ->
      exists r g b a,
        getpixel img x y = Some (r, g, b, a) /\
        0 <= r <= 255 /\ 0 <= g <= 255 /\ 0 <= b <= 255 /\ 0 <= a <= 255.
Proof.
  apply (generate_sphere_any_color pow_model (-15, 300, 1000000)).
  - exact pow_model_in_unit.
  - unfold int63_color. lia.
Defined.

(** ** [hex_to_rgb] on every string *)

Lemma upper_hash_checked :
  forallb (fun c => Bool.eqb (Ascii.eqb (upper c) "#") (Ascii.eqb c "#"))
          all_ascii = true.
Proof. vm_compute. reflexivity. Qed.

Lemma lstrip_upper s :
  lstrip "#" (map upper s) = map upper (lstrip "#" s).
Proof.
  induction s as [|c s IH]; [reflexivity|]. cbn [map lstrip].
  pose proof upper_hash_checked as H. rewrite forallb_forall in H.
  specialize (H c (in_all_ascii c)). apply eqb_prop in H. rewrite H.
  destruct (Ascii.eqb c "#"); [exact IH|reflexivity].
Qed.

Lemma slice_upper s i j : slice (map upper s) i j = map upper (slice s i j).
Proof. unfold slice. by rewrite skipn_map, firstn_map. Qed.

(** X8: The case of the letters does not matter to [hex_to_rgb], neither for
    the colour nor for the error. *)
Theorem hex_to_rgb_upper s : hex_to_rgb (map upper s) = hex_to_rgb s.
Proof.
  unfold hex_to_rgb. rewrite lstrip_upper, !slice_upper.
  destruct (int16_slice_facts (lstrip "#" s) 0 2 ltac:(lia)) as (_ & _ & ->).
  destruct (int16_slice_facts (lstrip "#" s) 2 4 ltac:(lia)) as (_ & _ & ->).
  destruct (int16_slice_facts (lstrip "#" s) 4 6 ltac:(lia)) as (_ & _ & ->).
  reflexivity.
Qed.

(** X9: A colour returned by [hex_to_rgb] has its channels between -15 and
    255: [int] accepts a sign within the two characters. *)
Theorem hex_to_rgb_range s r g b :
  hex_to_rgb s = Ok (r, g, b) ->
  -15 <= r <= 255 /\ -15 <= g <= 255 /\ -15 <= b <= 255.
Proof.
  unfold hex_to_rgb, mbind, result_bind.
  destruct (int16_slice_facts (lstrip "#" s) 0 2 ltac:(lia)) as (_ & H1 & _).
  destruct (int16_slice_facts (lstrip "#" s) 2 4 ltac:(lia)) as (_ & H2 & _).
  destruct (int16_slice_facts (lstrip "#" s) 4 6 ltac:(lia)) as (_ & H3 & _).
  destruct (int16 (slice (lstrip "#" s) 0 2)) as [v1|]; [|discriminate].
  destruct (int16 (slice (lstrip "#" s) 2 4)) as [v2|]; [|discriminate].
  destruct (int16 (slice (lstrip "#" s) 4 6)) as [v3|]; [|discriminate].
  cbn [Py.bind]. intros [= <- <- <-]. auto.
Qed.

Lemma hex_to_rgb_range_witness :
  -15 <= -15 <= 255 /\ -15 <= 10 <= 255 /\ -15 <= 255 <= 255.
Proof.
  apply (hex_to_rgb_range (list_ascii_of_string "#-F+aFF") (-15) 10 255).
  vm_compute. reflexivity.
Defined.

(** X10: [hex_to_rgb] raises nothing but [ValueError]. *)
Theorem hex_to_rgb_only_ValueError s e :
  hex_to_rgb s = Raise e -> e = ValueError.
Proof.
  unfold hex_to_rgb, mbind, result_bind.
  destruct (int16_slice_facts (lstrip "#" s) 0 2 ltac:(lia)) as (H1 & _ & _).
  destruct (int16_slice_facts (lstrip "#" s) 2 4 ltac:(lia)) as (H2 & _ & _).
  destruct (int16_slice_facts (lstrip "#" s) 4 6 ltac:(lia)) as (H3 & _ & _).
  destruct (int16 (slice (lstrip "#" s) 0 2)) as [v1|e1]; cbn [Py.bind];
    [|intros [= <-]; by apply H1].
  destruct (int16 (slice (lstrip "#" s) 2 4)) as [v2|e2]; cbn [Py.bind];
    [|intros [= <-]; by apply H2].
  destruct (int16 (slice (lstrip "#" s) 4 6)) as [v3|e3]; cbn [Py.bind];
    [discriminate|intros [= <-]; by apply H3].
Qed.

Lemma hex_to_rgb_only_ValueError_witness : ValueError = ValueError.
Proof.
  apply (hex_to_rgb_only_ValueError (list_ascii_of_string "#GGGGGG")).
  vm_compute. reflexivity.
Defined.

(** X11: With fewer than five characters after the leading hashes the blue
    slice is empty and [hex_to_rgb] raises [ValueError]. *)
Theorem hex_to_rgb_short s :
  (length (lstrip "#" s) < 5)%nat -> hex_to_rgb s = Raise ValueError.
Proof.
  intros Hlen.
  destruct (hex_to_rgb s) as [[[r g] b]|e] eqn:E.
  - exfalso. revert E. unfold hex_to_rgb, mbind, result_bind.
    destruct (int16 (slice (lstrip "#" s) 0 2)); [|discriminate].
    destruct (int16 (slice (lstrip "#" s) 2 4)); [|discriminate].
    cbn [Py.bind]. unfold slice. rewrite skipn_all2 by lia.
    cbn [firstn Nat.sub]. discriminate.
  - f_equal. by eapply hex_to_rgb_raises.
Qed.

Lemma hex_to_rgb_short_witness :
  hex_to_rgb (list_ascii_of_string "##FFFF") = Raise ValueError.
Proof.
  apply (hex_to_rgb_short (list_ascii_of_string "##FFFF")).
  vm_compute. lia.
Defined.

Lemma lstrip_head ch s :
  match lstrip ch s with
  | c :: _ => Ascii.eqb c ch = false
  | [] => True
  end.
Proof.
  induction s as [|c s IH]; [exact I|]. cbn [lstrip].
  destruct (Ascii.eqb c ch) eqn:E; [exact IH|exact E].
Qed.

Lemma slice_take s n i j : (j <= n)%nat -> slice (take n s) i j = slice s i j.
Proof.
  intros Hj. unfold slice.
  destruct (Nat.le_gt_cases i j) as [Hij|Hij].
  - rewrite !take_drop_commute, take_take.
    replace (Nat.min (i + (j - i)) n) with (i + (j - i))%nat by lia.
    reflexivity.
  - replace (j - i)%nat with 0%nat by lia. reflexivity.
Qed.

(** X12: [hex_to_rgb] reads only the first six characters after the leading
    hashes. *)
Theorem hex_to_rgb_prefix s :
  hex_to_rgb s = hex_to_rgb (take 6 (lstrip "#" s)).
Proof.
  unfold hex_to_rgb.
  assert (Hl : lstrip "#" (take 6 (lstrip "#" s)) = take 6 (lstrip "#" s)).
  { pose proof (lstrip_head "#" s) as H.
    destruct (lstrip "#" s) as [|c t]; [reflexivity|].
    cbn [take firstn lstrip]. by rewrite H. }
  rewrite Hl, !slice_take by lia. reflexivity.
Qed.

(** ** The driver loop on any list *)

Lemma process_entry_non_object pow save st e :
  is_object e = false -> process_entry pow save st e = Raise AttributeError.
Proof. by destruct e. Qed.

Lemma process_entry_raises pow save st e err :
  process_entry pow save st e = Raise err -> err = AttributeError.
Proof.
  destruct e; try (by intros [= <-]).
  unfold process_entry, get, mbind, result_bind. cbn [Py.bind].
  destruct (negb _ && _); [|discriminate].
  destruct (Py.bind _ _); [|discriminate].
  by destruct (save _ _ _).
Qed.

Lemma for_entries_raises pow save es : forall st st' err,
  for_entries pow save es st = (st', Some err) -> err = AttributeError.
Proof.
  induction es as [|e es IH]; intros st st' err; cbn [for_entries].
  - discriminate.
  - destruct (process_entry pow save st e) as [st1|e1] eqn:He.
    + apply IH.
    + intros [= _ <-]. by eapply process_entry_raises.
Qed.

(** X13: an element that is not an object ends the run.  [entry.get] raises
    [AttributeError] outside the [try]: the elements after it are never
    looked at, and what has been done is what the elements before it
    gave. *)
Theorem main_aborts_at_non_object pow save es1 e es2 :
  is_object e = false ->
  main pow save (JList (es1 ++ e :: es2))
  = (fst (main pow save (JList es1)), Some AttributeError).
Proof.
  intros He. unfold main. cbn [elements]. rewrite for_entries_app.
  destruct (for_entries pow save es1 _) as [st1 [e1|]] eqn:H1; cbn [fst].
  - by rewrite (for_entries_raises _ _ _ _ _ _ H1).
  - cbn [for_entries]. by rewrite process_entry_non_object.
Qed.

Lemma main_aborts_at_non_object_witness :
  main pow_model (fun _ _ _ => true)
    (JList ([dye 1 "#FF6B35"] ++ JStr "#000000" :: [dye 3 "#000000"]))
  = (fst (main pow_model (fun _ _ _ => true) (JList [dye 1 "#FF6B35"])),
     Some AttributeError).
Proof.
  apply (main_aborts_at_non_object pow_model (fun _ _ _ => true)
           [dye 1 "#FF6B35"] (JStr "#000000") [dye 3 "#000000"]).
  reflexivity.
Defined.

(** What one iteration does to the three records of the run. *)
Lemma process_entry_step pow save st e st' :
  process_entry pow save st e = Ok st' ->
  is_object e = true /\
  (st' = st \/
   exists id img,
     attempts st' = attempts st ++ [(id, img)] /\
     (saved st' = saved st ++ [(id, img)] /\ count st' = count st + 1 /\
      save (attempts st) id img = true
      \/ saved st' = saved st /\ count st' = count st /\
         save (attempts st) id img = false)).
Proof.
  intros H. destruct e; try discriminate H. split; [reflexivity|]. revert H.
  unfold process_entry, get, mbind, result_bind. cbn [Py.bind].
  destruct (negb _ && _); [|intros [= <-]; by left].
  destruct (Py.bind _ _) as [img|]; [|intros [= <-]; by left].
  destruct (save _ _ _) eqn:Hs; intros [= <-]; right; do 2 eexists;
    cbn [attempts saved count]; (split; [reflexivity|]); [left|right]; done.
Qed.

Lemma for_entries_count pow save es : forall st,
  count st = Z.of_nat (length (saved st)) ->
  saved st `sublist_of` attempts st ->
  let st' := fst (for_entries pow save es st) in
  count st' = Z.of_nat (length (saved st')) /\
  saved st' `sublist_of` attempts st' /\
  (length (attempts st') <= length (attempts st) + length es)%nat.
Proof.
  induction es as [|e es IH]; intros st Hc Hs; cbn [for_entries].
  - cbn [fst]. repeat split; [exact Hc|exact Hs|lia].
  - destruct (process_entry pow save st e) as [st1|err] eqn:He.
    2:{ cbn [fst length]. repeat split; [exact Hc|exact Hs|lia]. }
    destruct (process_entry_step _ _ _ _ _ He)
      as [_ [->|(id & img & Ha & [(Hsv & Hct & _)|(Hsv & Hct & _)])]].
    + destruct (IH st Hc Hs) as (H1 & H2 & H3). cbn [length].
      repeat split; [exact H1|exact H2|lia].
    + destruct (IH st1) as (H1 & H2 & H3).
      * rewrite Hct, Hsv, length_app, Hc. cbn [length]. lia.
      * rewrite Ha, Hsv. by apply sublist_app.
      * cbn [length]. repeat split; [exact H1|exact H2|].
        rewrite Ha, length_app in H3. cbn [length] in H3. lia.
    + destruct (IH st1) as (H1 & H2 & H3).
      * by rewrite Hct, Hsv.
      * rewrite Ha, Hsv. by apply sublist_inserts_r.
      * cbn [length]. repeat split; [exact H1|exact H2|].
        rewrite Ha, length_app in H3. cbn [length] in H3. lia.
Qed.

(** X14: the count reported is the number of calls of [img.save] that
    returned.  They are among the calls made, in order, and at most one
    call is made for each element; a call that raises leaves the count as
    it is, and so does everything that ends the run early. *)
Theorem main_count pow save data :
  count (fst (main pow save data))
    = Z.of_nat (length (saved (fst (main pow save data)))) /\
  saved (fst (main pow save data))
    `sublist_of` attempts (fst (main pow save data)) /\
  forall entries,
    elements data = Ok entries ->
    (length (attempts (fst (main pow save data))) <= length entries)%nat.
Proof.
  unfold main. destruct (elements data) as [entries|err].
  - destruct (for_entries_count pow save entries
                {| attempts := []; saved := []; count := 0 |}
                eq_refl (sublist_nil_l _)) as (H1 & H2 & H3).
    repeat split; [exact H1|exact H2|]. by intros ? [= <-].
  - cbn [fst attempts saved count length]. repeat split; [done|]. discriminate.
Qed.

Lemma written_id_spec pow save st members :
  pow_in_unit pow ->
  exists st',
    process_entry pow save st (JObj members) = Ok st' /\
    map fst (attempts st')
    = map fst (attempts st) ++ option_list (written_id (JObj members)).
Proof.
  intros Hpow.
  unfold process_entry, get, written_id, mbind, result_bind. cbn [Py.bind].
  destruct (assoc "hex" members) as [hex_color|]; cbn [from_option id].
  2:{ rewrite andb_false_r. exists st. by rewrite app_nil_r. }
  destruct hex_color as [| | | |h| |];
    try (exists st; rewrite app_nil_r; split; [|reflexivity];
         by destruct (negb _ && _)).
  cbn [truthy hex_to_rgb_of].
  destruct (negb (is_none _) && negb (String.eqb h "")); cbn [andb].
  2:{ exists st. by rewrite app_nil_r. }
  destruct (hex_to_rgb (list_ascii_of_string h)) as [rgb|err];
    cbn [Py.bind is_ok].
  2:{ exists st. by rewrite app_nil_r. }
  destruct (generate_sphere_total_wide pow rgb Hpow) as (img & -> & _).
  destruct (save _ _ _); eexists; (split; [reflexivity|]);
    cbn [attempts option_list]; by rewrite map_app.
Qed.

Lemma for_entries_attempts pow save es :
  pow_in_unit pow -> forall st,
  exists ids,
    map fst (attempts (fst (for_entries pow save es st)))
    = map fst (attempts st) ++ ids /\
    ids `prefix_of` omap written_id es /\
    (Forall (fun e => is_object e = true) es ->
     snd (for_entries pow save es st) = None /\ ids = omap written_id es).
Proof.
  intros Hpow. induction es as [|e es IH]; intros st; cbn [for_entries].
  - exists []. cbn [fst snd]. rewrite app_nil_r. by repeat split.
  - destruct (is_object e) eqn:Hobj.
    + destruct e; try discriminate.
      destruct (written_id_spec pow save st members Hpow) as (st1 & -> & Ha).
      destruct (IH st1) as (ids & Hids & Hpre & Hall).
      exists (option_list (written_id (JObj members)) ++ ids).
      rewrite Hids, Ha, <- app_assoc.
      assert (Ho : omap written_id (JObj members :: es)
                   = option_list (written_id (JObj members))
                     ++ omap written_id es).
      { unfold omap; cbn [list_omap].
        by destruct (written_id (JObj members)). }
      rewrite Ho. split; [reflexivity|]. split; [by apply prefix_app|].
      intros HF. apply Forall_cons in HF as [_ HF].
      destruct (Hall HF) as [-> ->]. by split.
    + rewrite process_entry_non_object by exact Hobj.
      exists []. cbn [fst snd]. rewrite app_nil_r.
      split; [reflexivity|]. split; [apply prefix_nil|].
      intros HF. apply Forall_cons in HF as [HF _]. congruence.
Qed.

Lemma for_entries_all_saved pow save es :
  (forall calls id img, save calls id img = true) -> forall st,
  saved st = attempts st ->
  saved (fst (for_entries pow save es st))
  = attempts (fst (for_entries pow save es st)).
Proof.
  intros Hsave. induction es as [|e es IH]; intros st Hst; cbn [for_entries].
  - exact Hst.
  - destruct (process_entry pow save st e) as [st1|err] eqn:He; [|exact Hst].
    apply IH.
    destruct (process_entry_step _ _ _ _ _ He)
      as [_ [->|(id & img & Ha & [(Hsv & _)|(_ & _ & Hno)])]].
    + exact Hst.
    + by rewrite Ha, Hsv, Hst.
    + rewrite Hsave in Hno. discriminate.
Qed.

(** X15: for which elements an image is saved.  The calls of [img.save]
    are made, in the order of the input, for the elements that are objects
    with an identifier and a non-empty colour string [hex_to_rgb] accepts:
    for the first so many of them, and for all of them when every element
    is an object, the run then ending normally; [generate_sphere] fails on
    none of the colours.  The images saved are those of the calls that
    returned, and when no call raises every call saves. *)
Theorem main_written_ids pow save entries :
  pow_in_unit pow ->
  map fst (attempts (fst (main pow save (JList entries))))
    `prefix_of` omap written_id entries /\
  saved (fst (main pow save (JList entries)))
    `sublist_of` attempts (fst (main pow save (JList entries))) /\
  (Forall (fun e => is_object e = true) entries ->
   snd (main pow save (JList entries)) = None /\
   map fst (attempts (fst (main pow save (JList entries))))
   = omap written_id entries) /\
  ((forall calls id img, save calls id img = true) ->
   saved (fst (main pow save (JList entries)))
   = attempts (fst (main pow save (JList entries)))).
Proof.
  intros Hpow. unfold main. cbn [elements].
  destruct (for_entries_count pow save entries
              {| attempts := []; saved := []; count := 0 |}
              eq_refl (sublist_nil_l _)) as (_ & Hsub & _).
  destruct (for_entries_attempts pow save entries Hpow
              {| attempts := []; saved := []; count := 0 |})
    as (ids & Hids & Hpre & Hall).
  cbn [attempts map app] in Hids. rewrite Hids.
  split; [exact Hpre|]. split; [exact Hsub|]. split; [exact Hall|].
  intros Hsave. by apply for_entries_all_saved.
Qed.

Lemma main_written_ids_witness :
  map fst (attempts (fst (main pow_model (fun _ _ _ => true)
    (JList [dye 1 "#FF6B35"; dye 2 "#GGGGGG"; JObj []; dye 5 "-1-1-1"]))))
  = [JNum 1; JNum 5].
Proof.
  destruct (main_written_ids pow_model (fun _ _ _ => true)
              [dye 1 "#FF6B35"; dye 2 "#GGGGGG"; JObj []; dye 5 "-1-1-1"]
              pow_model_in_unit) as (_ & _ & Hall & _).
  destruct Hall as [_ Hids]; [by repeat constructor|].
  exact Hids.
Defined.

(** * Properties of wake_bot.py *)

Section WakeFacts.

Import Wake.

Variable subprocess_run : list command -> command -> outcome.
Variable json_loads : string -> option json.

Lemma is_stopped_eq st : is_stopped st = true <-> st = JStr "stopped".
Proof.
  split.
  - destruct st; cbn; try discriminate. intros H.
    apply String.eqb_eq in H. by subst.
  - by intros ->.
Qed.

Lemma stopped_id_spec m id :
  stopped_id m = Some id <->
  getitem m "state" = inl (JStr "stopped") /\
  getitem m "id" = inl (JStr id).
Proof.
  unfold stopped_id, id_str. split.
  - destruct (getitem m "state") as [st|e]; [|discriminate].
    destruct (is_stopped st) eqn:Es; [|discriminate].
    apply is_stopped_eq in Es as ->.
    destruct (getitem m "id") as [[]|]; try discriminate.
    by intros [= ->].
  - by intros [-> ->].
Qed.

Lemma stopped_ids ms keep :
  stopped ms = inl keep -> omap stopped_id ms = omap id_str keep.
Proof.
  revert keep. induction ms as [|m ms IH]; intros keep H; cbn [stopped] in H.
  - by injection H as <-.
  - unfold omap at 1; cbn [list_omap]; fold (omap stopped_id ms).
    unfold stopped_id at 1.
    destruct (getitem m "state") as [st|e]; [|discriminate].
    destruct (stopped ms) as [keep0|e]; [|discriminate].
    injection H as <-. rewrite (IH keep0 eq_refl).
    destruct (is_stopped st); [|reflexivity].
    unfold omap at 2; cbn [list_omap]. reflexivity.
Qed.

Lemma stopped_raises ms m e :
  In m ms -> getitem m "state" = inr e ->
  exists e', stopped ms = inr e' /\ (e' = KeyError \/ e' = TypeError).
Proof.
  assert (G : forall m e, getitem m "state" = inr e ->
                          e = KeyError \/ e = TypeError).
  { intros m0 e0. unfold getitem.
    destruct m0; try (intros [= <-]; by right).
    destruct (assoc _ _); [discriminate|]. intros [= <-]. by left. }
  induction ms as [|m0 ms IH]; intros Hin He; [destruct Hin|].
  cbn [stopped]. destruct Hin as [->|Hin].
  - rewrite He. eexists. split; [reflexivity|]. by eapply G.
  - destruct (getitem m0 "state") eqn:E0.
    + destruct (IH Hin He) as (e' & -> & He'). by eexists.
    + eexists. split; [reflexivity|]. by eapply G.
Qed.

Lemma stopped_listed_ok ms keep :
  stopped ms = inl keep ->
  (Forall listed_ok ms <-> Forall (fun m => is_Some (id_str m)) keep).
Proof.
  revert keep. induction ms as [|m ms IH]; intros keep H; cbn [stopped] in H.
  - injection H as <-. split; constructor.
  - destruct (getitem m "state") as [st|e] eqn:Hst; [|discriminate].
    destruct (stopped ms) as [keep0|e]; [|discriminate].
    injection H as <-. specialize (IH keep0 eq_refl).
    rewrite Forall_cons. unfold listed_ok at 1. rewrite Hst.
    destruct (is_stopped st) eqn:Es.
    + rewrite Forall_cons, IH. split.
      * intros [(st' & [= <-] & Hs) Hk]. split; [by apply Hs|done].
      * intros [Hs Hk]. split; [|done]. exists st. by split.
    + rewrite IH. split.
      * by intros [_ Hk].
      * intros Hk. split; [|done]. exists st. split; [done|].
        rewrite Es. discriminate.
Qed.

(** The loop runs one start command per machine, in order, until a machine
    has no string identifier or [subprocess.run] raises. *)
Lemma start_all_trace ms : forall w,
  exists ids,
    trace (fst (start_all subprocess_run ms w))
      = trace w ++ map start_command ids /\
    ids `prefix_of` omap id_str ms /\
    (snd (start_all subprocess_run ms w) = None ->
       ids = omap id_str ms /\ Forall (fun m => is_Some (id_str m)) ms).
Proof.
  induction ms as [|m ms IH]; intros w; cbn [start_all].
  - exists []. cbn. rewrite app_nil_r.
    split; [reflexivity|]. split; [apply prefix_nil|]. by split.
  - destruct (getitem m "id") as [mid|e] eqn:Hid.
    2:{ exists []. cbn. rewrite app_nil_r.
        repeat split; try discriminate. apply prefix_nil. }
    destruct mid as [| | | |id| |];
      try (exists []; cbn; rewrite app_nil_r;
           repeat split; try discriminate; apply prefix_nil).
    assert (Ho : omap id_str (m :: ms) = id :: omap id_str ms).
    { unfold omap; cbn [list_omap]. unfold id_str at 1. by rewrite Hid. }
    rewrite Ho. unfold run_command. cbn [fst snd].
    destruct (subprocess_run _ _) as [r|e].
    + match goal with
      | |- context [start_all _ ms ?w'] =>
          destruct (IH w') as (ids & Ht & Hp & Hn);
          assert (Hw : trace w' = trace w ++ [start_command id])
            by (destruct (returncode r =? 0); reflexivity)
      end.
      exists (id :: ids). rewrite Ht, Hw. split.
      { cbn [map]. by rewrite <- app_assoc. }
      split; [by apply prefix_cons|].
      intros Hnone. destruct (Hn Hnone) as [-> HF].
      split; [reflexivity|]. constructor; [|done].
      unfold id_str. rewrite Hid. by eexists.
    + exists [id]. cbn [fst snd trace map]. repeat split; try discriminate.
      apply prefix_cons, prefix_nil.
Qed.

Lemma start_all_completes ms : forall w,
  Forall (fun m => is_Some (id_str m)) ms ->
  (forall h id, exists r, subprocess_run h (start_command id) = Completed r) ->
  snd (start_all subprocess_run ms w) = None.
Proof.
  intros w HF Hrun. revert w.
  induction HF as [|m ms [id Hm] HF IH]; intros w; cbn [start_all].
  - reflexivity.
  - unfold id_str in Hm.
    destruct (getitem m "id") as [[]|]; try discriminate.
    unfold run_command. cbn [fst snd].
    match goal with
    | |- context [subprocess_run ?h (start_command ?i)] =>
        destruct (Hrun h i) as [r ->]
    end.
    apply IH.
Qed.

Lemma trace_handle w e : trace (handle w e) = trace w.
Proof. by destruct e. Qed.

Lemma last_say w e : last (printed (say w e)) = Some e.
Proof. unfold printed, say. cbn [snd]. apply last_snoc. Qed.

Lemma last_handle w e : last (printed (handle w e)) <> Some Complete.
Proof. destruct e; cbn [handle]; rewrite last_say; discriminate. Qed.

(** X16: Whatever [fly] and the parser answer, the first command lists the
    machines and every later one starts a machine: those the listing gives
    as stopped, in the listing's order, one start per element, up to the
    first that cannot be started. *)
Theorem wake_bot_starts_only_stopped :
  exists ids,
    trace (wake_bot subprocess_run json_loads)
      = list_command :: map start_command ids /\
    (ids = [] \/
     exists r machines ms,
       subprocess_run [] list_command = Completed r /\
       returncode r = 0 /\
       json_loads (stdout r) = Some machines /\
       iterate machines = inl ms /\
       ids `prefix_of` omap stopped_id ms).
Proof.
  unfold wake_bot, run_command. cbn [say fst snd app].
  destruct (subprocess_run [] list_command) as [r|e] eqn:Hrun.
  2:{ exists []. rewrite trace_handle. by split; [|left]. }
  destruct (returncode r =? 0) eqn:Hrc; cbn [negb].
  2:{ exists []. by split; [|left]. }
  apply Z.eqb_eq in Hrc.
  destruct (json_loads (stdout r)) as [machines|] eqn:Hjs.
  2:{ exists []. by split; [|left]. }
  destruct (iterate machines) as [ms|e] eqn:Hit.
  2:{ exists []. rewrite trace_handle. by split; [|left]. }
  destruct (stopped ms) as [keep|e] eqn:Hst.
  2:{ exists []. rewrite trace_handle. by split; [|left]. }
  destruct keep as [|m keep].
  { exists []. by split; [|left]. }
  match goal with
  | |- context [start_all _ ?k ?w] =>
      destruct (start_all_trace k w) as (ids & Ht & Hp & _);
      destruct (start_all subprocess_run k w) as [w' [e|]]
  end; cbn [fst] in Ht; exists ids;
    (split; [rewrite ?trace_handle; exact Ht|]);
    right; exists r, machines, ms; rewrite (stopped_ids _ _ Hst); done.
Qed.

(** X17: When the listing is well formed and no start command raises, a start
    is attempted for every stopped machine, whether or not the earlier
    starts succeeded, and the run ends with the closing message. *)
Theorem wake_bot_attempts_every_stopped r machines ms :
  subprocess_run [] list_command = Completed r ->
  returncode r = 0 ->
  json_loads (stdout r) = Some machines ->
  iterate machines = inl ms ->
  Forall listed_ok ms ->
  (forall h id, exists r', subprocess_run h (start_command id) = Completed r') ->
  trace (wake_bot subprocess_run json_loads)
    = list_command :: map start_command (omap stopped_id ms) /\
  last (printed (wake_bot subprocess_run json_loads))
    = Some (match omap stopped_id ms with
            | [] => AllRunning (json_len machines)
            | _ :: _ => Complete
            end).
Proof.
  intros Hrun Hrc Hjs Hit Hok Hnr.
  unfold wake_bot, run_command. cbn [say fst snd app].
  rewrite Hrun, Hrc, Hjs, Hit. cbn [Z.eqb negb].
  destruct (stopped ms) as [keep|e] eqn:Hst.
  2:{ exfalso. clear - Hok Hst. induction Hok as [|m ms (st & Hm & _) _ IH].
      - discriminate.
      - cbn [stopped] in Hst. rewrite Hm in Hst.
        destruct (stopped ms); [discriminate|]. by apply IH. }
  rewrite (stopped_ids _ _ Hst).
  apply (stopped_listed_ok _ _ Hst) in Hok.
  destruct keep as [|m keep].
  { split; [reflexivity|]. apply last_snoc. }
  match goal with
  | |- context [start_all _ ?k ?w] =>
      destruct (start_all_trace k w) as (ids & Ht & _ & Hn);
      pose proof (start_all_completes k w Hok Hnr) as Hc;
      destruct (start_all subprocess_run k w) as [w' o]
  end.
  cbn [fst snd] in *. subst o. destruct (Hn eq_refl) as [-> _].
  split; [exact Ht|].
  inversion Hok as [|? ? [id Hid] _]; subst.
  unfold omap; cbn [list_omap]. rewrite Hid. apply last_snoc.
Qed.

(** X18: One element of the listing without a readable state is enough for no
    machine to be started: the selection raises before the first start. *)
Theorem wake_bot_missing_state r machines ms m e :
  subprocess_run [] list_command = Completed r ->
  returncode r = 0 ->
  json_loads (stdout r) = Some machines ->
  iterate machines = inl ms ->
  In m ms ->
  getitem m "state" = inr e ->
  trace (wake_bot subprocess_run json_loads) = [list_command] /\
  exists e', (e' = KeyError \/ e' = TypeError) /\
    printed (wake_bot subprocess_run json_loads)
      = [Waking; Checking; Unexpected e'].
Proof.
  intros Hrun Hrc Hjs Hit Hin He.
  unfold wake_bot, run_command. cbn [say fst snd app].
  rewrite Hrun, Hrc, Hjs, Hit. cbn [Z.eqb negb].
  destruct (stopped_raises ms m e Hin He) as (e' & -> & He').
  split; [by rewrite trace_handle|].
  exists e'. split; [exact He'|]. by destruct He' as [-> | ->].
Qed.

(** X19: The closing message is printed only when the listing was read, every
    element of it was well formed and a start was attempted for each
    stopped machine. *)
Theorem wake_bot_complete_means_all_attempted :
  last (printed (wake_bot subprocess_run json_loads)) = Some Complete ->
  exists r machines ms,
    subprocess_run [] list_command = Completed r /\
    returncode r = 0 /\
    json_loads (stdout r) = Some machines /\
    iterate machines = inl ms /\
    Forall listed_ok ms /\
    omap stopped_id ms <> [] /\
    trace (wake_bot subprocess_run json_loads)
      = list_command :: map start_command (omap stopped_id ms).
Proof.
  unfold wake_bot, run_command. cbn [say fst snd app].
  destruct (subprocess_run [] list_command) as [r|e] eqn:Hrun.
  2:{ intros H. by apply last_handle in H. }
  destruct (returncode r =? 0) eqn:Hrc; cbn [negb].
  2:{ rewrite last_say. discriminate. }
  apply Z.eqb_eq in Hrc.
  destruct (json_loads (stdout r)) as [machines|] eqn:Hjs.
  2:{ rewrite last_say. discriminate. }
  destruct (iterate machines) as [ms|e] eqn:Hit.
  2:{ intros H. by apply last_handle in H. }
  destruct (stopped ms) as [keep|e] eqn:Hst.
  2:{ intros H. by apply last_handle in H. }
  destruct keep as [|m keep].
  { rewrite last_say. discriminate. }
  match goal with
  | |- context [start_all _ ?k ?w] =>
      destruct (start_all_trace k w) as (ids & Ht & _ & Hn);
      destruct (start_all subprocess_run k w) as [w' [e|]]
  end.
  { intros H. by apply last_handle in H. }
  intros _. cbn [fst snd] in *. destruct (Hn eq_refl) as [-> HF].
  exists r, machines, ms. rewrite (stopped_ids _ _ Hst).
  repeat (split; [done|]).
  split; [by apply (stopped_listed_ok _ _ Hst)|].
  split; [|exact Ht].
  inversion HF as [|? ? [id Hid] _]; subst.
  unfold omap; cbn [list_omap]. by rewrite Hid.
Qed.

End WakeFacts.

Section WakeExamples.

Import Wake.

Lemma wake_bot_attempts_every_stopped_witness :
  trace (wake_bot failing_fly (fun _ => Some (JList example_listing)))
    = [list_command; start_command "a"; start_command "c"] /\
  last (printed (wake_bot failing_fly (fun _ => Some (JList example_listing))))
    = Some Complete.
Proof.
  apply (wake_bot_attempts_every_stopped failing_fly
           (fun _ => Some (JList example_listing))
           {| returncode := 0; stdout := "listing"; stderr := "no capacity" |}
           (JList example_listing) example_listing);
    try reflexivity.
  - repeat constructor; eexists; (split; [reflexivity|]);
      intros _; by eexists.
  - intros h id. by eexists.
Defined.

Lemma wake_bot_missing_state_witness :
  trace (wake_bot failing_fly
           (fun _ => Some (JList [machine "a" "stopped";
                                  JObj [("id", JStr "b")]%string])))
    = [list_command] /\
  exists e', (e' = KeyError \/ e' = TypeError) /\
    printed (wake_bot failing_fly
               (fun _ => Some (JList [machine "a" "stopped";
                                      JObj [("id", JStr "b")]%string])))
      = [Waking; Checking; Unexpected e'].
Proof.
  apply (wake_bot_missing_state failing_fly _
           {| returncode := 0; stdout := "listing"; stderr := "no capacity" |}
           (JList [machine "a" "stopped"; JObj [("id", JStr "b")]%string])
           [machine "a" "stopped"; JObj [("id", JStr "b")]%string]
           (JObj [("id", JStr "b")]%string) KeyError);
    try reflexivity.
  right. by left.
Defined.

Lemma wake_bot_complete_means_all_attempted_witness :
  exists r machines ms,
    failing_fly [] list_command = Completed r /\
    returncode r = 0 /\
    Some (JList example_listing) = Some machines /\
    iterate machines = inl ms /\
    Forall listed_ok ms /\
    omap stopped_id ms <> [] /\
    trace (wake_bot failing_fly (fun _ => Some (JList example_listing)))
      = list_command :: map start_command (omap stopped_id ms).
Proof.
  apply (wake_bot_complete_means_all_attempted failing_fly
           (fun _ => Some (JList example_listing))).
  vm_compute. reflexivity.
Defined.

End WakeExamples.
